(** * Supermarket dashboard: the loading, filtering and aggregation pipeline

    A shallow embedding of [dashboards.py].  The program is a thin layer over
    pandas: [load_data] reads a semicolon separated file, converts the [Date]
    column, sorts by it and derives a [Month] column; [sidebar_filters] keeps
    the rows of one month; the [plot_*] helpers group and reduce the rows that
    are handed to the charts; [main] chains them.

    The pandas primitives the program calls are modelled next to the program:
    a data frame is a list of rows carrying the position they had in the file,
    a cell is a missing value, a number, a text or a timestamp.  Numbers are
    exact rationals: the rounding of binary floating point is not described.
    The order [numpy] gives to equal sort keys under [kind="quicksort"] is not
    fixed by its documentation, so the sorting routine is a parameter of which
    only the documented contract is assumed. *)

From Stdlib Require Import List String Ascii Bool Arith ZArith QArith Qreduction Qpower.
From Stdlib Require Import Lia Permutation Sorted DecimalString.
Import ListNotations.
Close Scope Q_scope.
Local Open Scope string_scope.
Local Open Scope nat_scope.

Set Implicit Arguments.

(** ** Exceptions and the result of a call *)

Inductive exception : Type :=
| FileNotFoundError
| PermissionError
| EmptyDataError
| ParserError
| KeyError (key : string)
| ValueError
| OutOfBoundsDatetime
| TypeError.

Inductive result (A : Type) : Type :=
| Ok (a : A)
| Raise (e : exception).

Arguments Ok {A} a.
Arguments Raise {A} e.

Definition bind {A B : Type} (r : result A) (k : A -> result B) : result B :=
  match r with
  | Ok a => k a
  | Raise e => Raise e
  end.

Notation "x <- c ;; k" := (bind c (fun x => k))
  (at level 61, c at next level, right associativity).

Definition is_ok {A : Type} (r : result A) : bool :=
  match r with Ok _ => true | Raise _ => false end.

(** ** Cells, rows and frames *)

Record date : Type := mkDate { year : nat; month : nat; day : nat }.

Inductive cell : Type :=
| NaN                (* missing value of a number or text column *)
| Num (q : Q)        (* int64 or float64 value *)
| Str (s : string)   (* Python str in an object column *)
| Ts (d : date)      (* datetime64 value *)
| NaT.               (* missing datetime64 value *)

Definition isna (c : cell) : bool :=
  match c with
  | NaN | NaT => true
  | _ => false
  end.

Definition is_datetime (c : cell) : bool :=
  match c with Ts _ | NaT => true | _ => false end.

(** A row keeps the position it had among the data lines of the file; the
    program never resets the index, so this is the identity of a record. *)
Record row : Type := mkRow { pos : nat; cells : list (string * cell) }.

Record DataFrame : Type := mkFrame { columns : list string; rows : list row }.

Fixpoint assoc (k : string) (l : list (string * cell)) : option cell :=
  match l with
  | [] => None
  | (k', v) :: l' => if String.eqb k k' then Some v else assoc k l'
  end.

Definition get (r : row) (c : string) : cell :=
  match assoc c (cells r) with
  | Some v => v
  | None => NaN
  end.

Fixpoint update (k : string) (v : cell) (l : list (string * cell))
  : list (string * cell) :=
  match l with
  | [] => [(k, v)]
  | (k', v') :: l' =>
      if String.eqb k k' then (k, v) :: l' else (k', v') :: update k v l'
  end.

Definition set_cell (c : string) (v : cell) (r : row) : row :=
  mkRow (pos r) (update c v (cells r)).

Definition has_column (df : DataFrame) (c : string) : bool :=
  existsb (String.eqb c) (columns df).

(** [df[c]]: the values of a column, or [KeyError]. *)
Definition getitem (df : DataFrame) (c : string) : result (list cell) :=
  if has_column df c then Ok (map (fun r => get r c) (rows df))
  else Raise (KeyError c).

Fixpoint set_cells (c : string) (vs : list cell) (rs : list row) : list row :=
  match rs, vs with
  | r :: rs', v :: vs' => set_cell c v r :: set_cells c vs' rs'
  | _, _ => rs
  end.

(** [df[c] = vs]: replaces the column, or appends it after the others. *)
Definition setitem (df : DataFrame) (c : string) (vs : list cell) : DataFrame :=
  mkFrame (if has_column df c then columns df else (columns df ++ [c])%list)
          (set_cells c vs (rows df)).

(** ** [pd.read_csv(path, sep=";", decimal=",")] *)

Definition Path : Type := string.

Inductive file : Type :=
| Unreadable
| Content (text : string).

Definition filesystem : Type := Path -> option file.

Definition LF : ascii := "010"%char.
Definition CR : ascii := "013"%char.
Definition TAB : ascii := "009"%char.

Definition is_terminator (c : ascii) : bool := Ascii.eqb c LF || Ascii.eqb c CR.
Definition is_delimiter (c : ascii) : bool := Ascii.eqb c ";".
Definition is_blank (c : ascii) : bool := Ascii.eqb c " " || Ascii.eqb c TAB.

Fixpoint split (is_sep : ascii -> bool) (s : list ascii) : list (list ascii) :=
  match s with
  | [] => [[]]
  | c :: s' =>
      if is_sep c then [] :: split is_sep s'
      else match split is_sep s' with
           | w :: ws => (c :: w) :: ws
           | [] => [[c]]
           end
  end.

(** The tokenizer.  A line ends at a line feed or a carriage return; lines
    made of blanks only are skipped ([skip_blank_lines=True]); fields are cut
    at every semicolon.  Quoting is not interpreted: the statements below that
    depend on the cut of a line are about text without the quote character. *)
Definition tokenize (text : string) : list (list string) :=
  let lines := split is_terminator (list_ascii_of_string text) in
  let lines := filter (fun l => negb (forallb is_blank l)) lines in
  map (fun l => map string_of_list_ascii (split is_delimiter l)) lines.

(** The strings read as a missing value ([STR_NA_VALUES] of pandas 2). *)
Definition STR_NA_VALUES : list string :=
  [ "-1.#IND"; "1.#QNAN"; "1.#IND"; "-1.#QNAN"; "#N/A N/A"; "#N/A"; "N/A";
    "n/a"; "NA"; "<NA>"; "#NA"; "NULL"; "null"; "NaN"; "-NaN"; "nan"; "-nan";
    ""; "None" ].

Definition is_na_value (s : string) : bool := existsb (String.eqb s) STR_NA_VALUES.

(** *** Numbers with the decimal separator [","] *)

Definition is_digit (c : ascii) : bool :=
  let n := nat_of_ascii c in (48 <=? n) && (n <=? 57).

Definition digit_val (c : ascii) : nat := nat_of_ascii c - 48.

Definition is_space (c : ascii) : bool :=
  let n := nat_of_ascii c in (n =? 32) || ((9 <=? n) && (n <=? 13)).

Fixpoint skip_spaces (s : list ascii) : list ascii :=
  match s with
  | c :: s' => if is_space c then skip_spaces s' else s
  | [] => []
  end.

(** Reads the longest prefix of digits: the number read so far, how many
    digits were read, and the rest. *)
Fixpoint read_digits (acc : N) (n : nat) (s : list ascii) : N * nat * list ascii :=
  match s with
  | c :: s' =>
      if is_digit c then read_digits (10 * acc + N.of_nat (digit_val c))%N (S n) s'
      else (acc, n, s)
  | [] => (acc, n, [])
  end.

Definition read_sign (s : list ascii) : bool * list ascii :=
  match s with
  | "-"%char :: s' => (true, s')
  | "+"%char :: s' => (false, s')
  | _ => (false, s)
  end.

(** mantissa * 10 ^ exponent, reduced. *)
Definition scale (neg : bool) (mant : N) (e : Z) : Q :=
  let m := if neg then (- Z.of_N mant)%Z else Z.of_N mant in
  match e with
  | Zneg p => Qred (Qmake m (10 ^ p))
  | _ => Qred (Qmake (m * 10 ^ e) 1)
  end.

(** The converter of the C parser ([xstrtod] with [decimal=','], [sci='E'],
    no thousands separator): blanks, a sign, digits, a comma and digits, an
    exponent, blanks, and nothing more.  The spellings of infinity are not
    read as numbers here. *)
Definition parse_number (s : string) : option Q :=
  let s0 := skip_spaces (list_ascii_of_string s) in
  let '(neg, s1) := read_sign s0 in
  let '(ip, ni, s2) := read_digits 0 0 s1 in
  let '(mant, nf, s3) :=
    match s2 with
    | ","%char :: s2' => let '(m, nf, s3) := read_digits ip 0 s2' in (m, nf, s3)
    | _ => (ip, 0, s2)
    end in
  if ni + nf =? 0 then None
  else
    let '(ex, ok, s4) :=
      match s3 with
      | c :: s3' =>
          if Ascii.eqb c "e" || Ascii.eqb c "E" then
            let '(eneg, s3'') := read_sign s3' in
            let '(ev, ne, s4) := read_digits 0 0 s3'' in
            ((if eneg then - Z.of_N ev else Z.of_N ev)%Z, negb (ne =? 0), s4)
          else (0%Z, true, s3)
      | [] => (0%Z, true, [])
      end in
    if ok then
      match skip_spaces s4 with
      | [] => Some (scale neg mant (ex - Z.of_nat nf))
      | _ => None
      end
    else None.

Definition is_some {A : Type} (o : option A) : bool :=
  match o with Some _ => true | None => false end.

(** A column is numeric when each of its fields is a missing value or a
    number; otherwise every field that is not missing stays a text. *)
Definition numeric_column (raws : list string) : bool :=
  forallb (fun s => is_na_value s || is_some (parse_number s)) raws.

Definition convert (numeric : bool) (s : string) : cell :=
  if is_na_value s then NaN
  else if numeric then
         match parse_number s with
         | Some q => Num q
         | None => Str s
         end
       else Str s.

Definition pad (n : nat) (fields : list string) : list string :=
  (fields ++ repeat "" (n - List.length fields))%list.

(** The data lines are as wide as the wider of the header and the first data
    line; a later line with more fields is an error, one with fewer is filled
    with missing values.  When the data lines are wider than the header, the
    leading fields are the index and are not columns. *)
Definition parse_table (lines : list (list string)) : result DataFrame :=
  match lines with
  | [] => Raise EmptyDataError
  | header :: data =>
      let width := match data with
                   | [] => List.length header
                   | first :: _ => Nat.max (List.length header) (List.length first)
                   end in
      if existsb (fun l => width <? List.length l) data then Raise ParserError
      else
        let lead := width - List.length header in
        let body := map (fun l => skipn lead (pad width l)) data in
        let numeric j := numeric_column (map (fun l => nth j l "") body) in
        let named := combine header (seq 0 (List.length header)) in
        let mk i l :=
          mkRow i (map (fun '(name, j) =>
                          (name, convert (numeric j) (nth j l ""))) named) in
        Ok (mkFrame header (map (fun '(i, l) => mk i l)
                                (combine (seq 0 (List.length body)) body)))
  end.

Definition read_csv (fs : filesystem) (path : Path) : result DataFrame :=
  match fs path with
  | None => Raise FileNotFoundError
  | Some Unreadable => Raise PermissionError
  | Some (Content text) => parse_table (tokenize text)
  end.

(** ** [pd.to_datetime(column, format="%m/%d/%Y")] *)

Definition is_leap (y : nat) : bool :=
  ((y mod 4 =? 0) && negb (y mod 100 =? 0)) || (y mod 400 =? 0).

Definition days_in_month (y m : nat) : nat :=
  match m with
  | 2 => if is_leap y then 29 else 28
  | 4 | 6 | 9 | 11 => 30
  | _ => 31
  end.

Definition date_compare (a b : date) : comparison :=
  match Nat.compare (year a) (year b) with
  | Eq => match Nat.compare (month a) (month b) with
          | Eq => Nat.compare (day a) (day b)
          | c => c
          end
  | c => c
  end.

Definition date_leb (a b : date) : bool :=
  match date_compare a b with Gt => false | _ => true end.

Definition date_le (a b : date) : Prop := date_leb a b = true.

(** The days a nanosecond timestamp can hold. *)
Definition Timestamp_min : date := mkDate 1677 9 22.
Definition Timestamp_max : date := mkDate 2262 4 11.

(** [%m]: 1[0-2], 0[1-9] or [1-9]. *)
Definition directive_m (s : list ascii) : option nat :=
  match s with
  | [a] => if is_digit a && (1 <=? digit_val a) then Some (digit_val a) else None
  | [a; b] =>
      let v := 10 * digit_val a + digit_val b in
      if is_digit a && is_digit b && (1 <=? v) && (v <=? 12) then Some v else None
  | _ => None
  end.

(** [%d]: 3[0-1], [1-2][0-9], 0[1-9], [1-9] or a blank and [1-9]. *)
Definition directive_d (s : list ascii) : option nat :=
  match s with
  | [a] => if is_digit a && (1 <=? digit_val a) then Some (digit_val a) else None
  | [a; b] =>
      if Ascii.eqb a " " then
        if is_digit b && (1 <=? digit_val b) then Some (digit_val b) else None
      else
        let v := 10 * digit_val a + digit_val b in
        if is_digit a && is_digit b && (1 <=? v) && (v <=? 31) then Some v else None
  | _ => None
  end.

(** [%Y]: four digits. *)
Definition directive_Y (s : list ascii) : option nat :=
  match s with
  | [a; b; c; d] =>
      if is_digit a && is_digit b && is_digit c && is_digit d
      then Some (1000 * digit_val a + 100 * digit_val b + 10 * digit_val c + digit_val d)
      else None
  | _ => None
  end.

(** The whole text has to match month/day/year; the day has to exist in the
    month and the date has to fit a nanosecond timestamp. *)
Definition strptime (s : string) : result date :=
  match split (Ascii.eqb "/") (list_ascii_of_string s) with
  | [sm; sd; sy] =>
      match directive_m sm, directive_d sd, directive_Y sy with
      | Some m, Some d, Some y =>
          if (y =? 0) || (days_in_month y m <? d) then Raise ValueError
          else
            let t := mkDate y m d in
            if date_leb Timestamp_min t && date_leb t Timestamp_max then Ok t
            else Raise OutOfBoundsDatetime
      | _, _, _ => Raise ValueError
      end
  | _ => Raise ValueError
  end.

(** A missing value becomes [NaT]; a number never has the shape of a date. *)
Definition to_datetime1 (c : cell) : result cell :=
  match c with
  | NaN | NaT => Ok NaT
  | Ts d => Ok (Ts d)
  | Str s => d <- strptime s ;; Ok (Ts d)
  | Num _ => Raise ValueError
  end.

Fixpoint to_datetime (col : list cell) : result (list cell) :=
  match col with
  | [] => Ok []
  | c :: col' =>
      t <- to_datetime1 c ;;
      ts <- to_datetime col' ;;
      Ok (t :: ts)
  end.

(** ** [Series.dt.to_period("M").astype(str)] *)

Inductive Period : Type :=
| PeriodM (y m : nat)
| PeriodNaT.

Definition to_period_M (c : cell) : Period :=
  match c with
  | Ts d => PeriodM (year d) (month d)
  | _ => PeriodNaT
  end.

Definition digit_char (n : nat) : ascii := ascii_of_nat (48 + n mod 10).

Definition period_str (p : Period) : string :=
  match p with
  | PeriodM y m =>
      string_of_list_ascii
        [ digit_char (y / 1000); digit_char (y / 100); digit_char (y / 10);
          digit_char y; "-"%char; digit_char (m / 10); digit_char m ]
  | PeriodNaT => "NaT"
  end.

Definition month_key (c : cell) : cell := Str (period_str (to_period_M c)).

(** ** [DataFrame.sort_values(by)] *)

Definition take {A : Type} (d : A) (indexer : list nat) (l : list A) : list A :=
  map (fun i => nth i l d) indexer.

Definition epoch : date := mkDate 1970 1 1.

Definition as_date (c : cell) : date :=
  match c with Ts d => d | _ => epoch end.

Definition empty_row : row := mkRow 0 [].

Section Sorting.

(** [numpy.argsort(kind="quicksort")] on datetime64 keys.  Its contract: the
    result lists every position once, and reading the keys in that order
    gives them in ascending order.  Nothing is promised about equal keys. *)
Variable argsort : list date -> list nat.

Definition argsort_contract : Prop :=
  forall ks : list date,
    Permutation (argsort ks) (seq 0 (List.length ks)) /\
    StronglySorted date_le (take epoch (argsort ks) ks).

(** [nargsort]: the missing keys are set apart and come last, in the order
    they had; the others are ordered by [argsort]. *)
Definition nargsort (items : list cell) : list nat :=
  let idx := seq 0 (List.length items) in
  let mask i := isna (nth i items NaN) in
  let non_nan_idx := filter (fun i => negb (mask i)) idx in
  let nan_idx := filter mask idx in
  let non_nans := map as_date (take NaN non_nan_idx items) in
  (take 0 (argsort non_nans) non_nan_idx ++ nan_idx)%list.

Definition sort_values (df : DataFrame) (by_ : string) : result DataFrame :=
  k <- getitem df by_ ;;
  Ok (mkFrame (columns df) (take empty_row (nargsort k) (rows df))).

(** ** [load_data], the function under the cache *)

Definition load_data_wrapped (fs : filesystem) (path : Path) : result DataFrame :=
  df <- read_csv fs path ;;
  date <- getitem df "Date" ;;
  date <- to_datetime date ;;
  let df := setitem df "Date" date in
  df <- sort_values df "Date" ;;
  date <- getitem df "Date" ;;
  let df := setitem df "Month" (map month_key date) in
  Ok df.

End Sorting.

(** ** Equality of cells, [unique], comparison with a scalar, masks *)

(** Identity of values, as used to find the distinct values of a column and
    to form groups: missing values are alike. *)
Definition cell_eqb (a b : cell) : bool :=
  match a, b with
  | NaN, NaN => true
  | NaT, NaT => true
  | Num p, Num q => Qeq_bool p q
  | Str s, Str t => String.eqb s t
  | Ts d, Ts e => match date_compare d e with Eq => true | _ => false end
  | _, _ => false
  end.

(** [Series.unique()]: the distinct values in order of first appearance. *)
Fixpoint unique_from {A : Type} (eqb : A -> A -> bool) (seen l : list A) : list A :=
  match l with
  | [] => []
  | x :: l' =>
      if existsb (eqb x) seen then unique_from eqb seen l'
      else x :: unique_from eqb (x :: seen) l'
  end.

Definition unique {A : Type} (eqb : A -> A -> bool) (l : list A) : list A :=
  unique_from eqb [] l.

(** [column == scalar], element by element: a missing value equals nothing,
    and [None] as the scalar equals nothing either. *)
Definition eq_scalar (scalar : option cell) (c : cell) : bool :=
  match scalar with
  | Some v => negb (isna c) && cell_eqb c v
  | None => false
  end.

(** [df[mask]] *)
Fixpoint boolean_index (rs : list row) (mask : list bool) : list row :=
  match rs, mask with
  | r :: rs', b :: mask' =>
      if b then r :: boolean_index rs' mask' else boolean_index rs' mask'
  | _, _ => []
  end.

(** [df[df["Month"] == month]], the value [sidebar_filters] returns. *)
Definition month_filter (df : DataFrame) (month_ : option cell) : result DataFrame :=
  col <- getitem df "Month" ;;
  Ok (mkFrame (columns df) (boolean_index (rows df) (map (eq_scalar month_) col))).

(** ** [groupby(by)[column].sum()] and [.mean()], with [as_index=False] *)

Definition cell_rank (c : cell) : nat :=
  match c with NaN => 0 | Num _ => 1 | Str _ => 2 | Ts _ => 3 | NaT => 4 end.

Definition cell_leb (a b : cell) : bool :=
  match a, b with
  | Num p, Num q => Qle_bool p q
  | Str s, Str t => String.leb s t
  | Ts d, Ts e => date_leb d e
  | _, _ => cell_rank a <=? cell_rank b
  end.

Fixpoint key_eqb (a b : list cell) : bool :=
  match a, b with
  | [], [] => true
  | x :: a', y :: b' => cell_eqb x y && key_eqb a' b'
  | _, _ => false
  end.

Fixpoint key_leb (a b : list cell) : bool :=
  match a, b with
  | [], _ => true
  | _ :: _, [] => false
  | x :: a', y :: b' =>
      if cell_eqb x y then key_leb a' b' else cell_leb x y
  end.

Fixpoint insert_key (k : list cell) (l : list (list cell)) : list (list cell) :=
  match l with
  | [] => [k]
  | k' :: l' => if key_leb k k' then k :: l else k' :: insert_key k l'
  end.

(** The group keys are distinct, so every sorting routine orders them alike. *)
Definition sort_keys (l : list (list cell)) : list (list cell) :=
  fold_right insert_key [] l.

Definition group_key (by_ : list string) (r : row) : list cell :=
  map (get r) by_.

(** Rows with a missing value in a key are left out ([dropna=True]); the
    groups come in the order of their keys ([sort=True]); only keys that
    occur form a group. *)
Definition groups (by_ : list string) (rs : list row)
  : list (list cell * list row) :=
  let keyed := filter (fun r => negb (existsb isna (group_key by_ r))) rs in
  let keys := sort_keys (unique key_eqb (map (group_key by_) keyed)) in
  map (fun k => (k, filter (fun r => key_eqb (group_key by_ r) k) keyed)) keys.

(** Python's [+] on the values of a cell. *)
Definition cell_add (a b : cell) : result cell :=
  match a, b with
  | Num p, Num q => Ok (Num (Qred (p + q)))
  | Str s, Str t => Ok (Str (s ++ t)%string)
  | _, _ => Raise TypeError
  end.

(** The sum of a group: missing values are skipped, the first value starts
    the sum, and a group without values sums to zero. *)
Fixpoint sum_from (acc : option cell) (l : list cell) : result cell :=
  match l with
  | [] => Ok (match acc with Some v => v | None => Num 0 end)
  | c :: l' =>
      if isna c then sum_from acc l'
      else match acc with
           | None => sum_from (Some c) l'
           | Some v => s <- cell_add v c ;; sum_from (Some s) l'
           end
  end.

Definition agg_sum (l : list cell) : result cell := sum_from None l.

Fixpoint numbers (l : list cell) : result (list Q) :=
  match l with
  | [] => Ok []
  | c :: l' =>
      if isna c then numbers l'
      else match c with
           | Num q => qs <- numbers l' ;; Ok (q :: qs)
           | _ => Raise TypeError
           end
  end.

Definition Qsum (l : list Q) : Q := fold_right Qplus 0%Q l.

(** The mean of a group: missing values are skipped; a group without values
    has the mean [NaN], no division takes place for it. *)
Definition agg_mean (l : list cell) : result cell :=
  qs <- numbers l ;;
  match qs with
  | [] => Ok NaN
  | _ => Ok (Num (Qred (Qsum qs / inject_Z (Z.of_nat (List.length qs)))%Q))
  end.

Fixpoint first_missing (df : DataFrame) (cs : list string) : option string :=
  match cs with
  | [] => None
  | c :: cs' => if has_column df c then first_missing df cs' else Some c
  end.

Fixpoint aggregate (by_ : list string) (column : string)
    (agg : list cell -> result cell) (i : nat)
    (gs : list (list cell * list row)) : result (list row) :=
  match gs with
  | [] => Ok []
  | (k, members) :: gs' =>
      v <- agg (map (fun r => get r column) members) ;;
      rs <- aggregate by_ column agg (S i) gs' ;;
      Ok (mkRow i (combine by_ k ++ [(column, v)])%list :: rs)
  end.

Definition groupby_agg (df : DataFrame) (by_ : list string) (column : string)
    (agg : list cell -> result cell) : result DataFrame :=
  match first_missing df (by_ ++ [column])%list with
  | Some c => Raise (KeyError c)
  | None =>
      rs <- aggregate by_ column agg 0 (groups by_ (rows df)) ;;
      Ok (mkFrame (by_ ++ [column])%list rs)
  end.

(** ** The process: the cache, the frames it holds, the page *)

Inductive chart : Type :=
| RevenueByDay | RevenueByProduct | RevenueByCity | RevenueByPayment | RatingByCity.

Inductive widget : Type :=
| Title
| SidebarHeader
| Selectbox (options : list cell)
| Columns (n : nat)
| PlotlyChart (c : chart) (data : DataFrame)
| Caption.

(** A frame returned by the loader is an object of the heap, named by its
    position there.  [executions] lists the paths for which the body of the
    loader ran, the latest first. *)
Record world : Type := mkWorld {
  cache : option (Path * nat);
  heap : list DataFrame;
  executions : list Path;
  page : list widget
}.

Definition initial : world := mkWorld None [] [] [].

Definition action (A : Type) : Type := world -> result A * world.

Definition ret {A : Type} (a : A) : action A := fun w => (Ok a, w).

Definition lift {A : Type} (r : result A) : action A := fun w => (r, w).

Definition bind_action {A B : Type} (m : action A) (k : A -> action B) : action B :=
  fun w =>
    match m w with
    | (Ok a, w') => k a w'
    | (Raise e, w') => (Raise e, w')
    end.

Notation "x <~ c ;; k" := (bind_action c (fun x => k))
  (at level 61, c at next level, right associativity).

Definition render (x : widget) : action unit :=
  fun w => (Ok tt, mkWorld (cache w) (heap w) (executions w) (page w ++ [x])%list).

Definition empty_frame : DataFrame := mkFrame [] [].

Definition deref (obj : nat) : action DataFrame :=
  fun w => (Ok (nth obj (heap w) empty_frame), w).

Definition DATA_PATH (here : Path) : Path :=
  (here ++ "/data/supermarket_sales.csv")%string.

Section Program.

Variable argsort : list date -> list nat.

(** The choice made in [st.sidebar.selectbox]: one of the options, or
    [None] when there is nothing to choose from. *)
Variable selectbox : list cell -> option cell.

Variable fs : filesystem.

(** [@lru_cache(maxsize=1)]: one entry, found by the path; a call that
    raises leaves the cache as it was. *)
Definition load_data (path : Path) : action nat :=
  fun w =>
    let miss :=
      let ran := path :: executions w in
      match load_data_wrapped argsort fs path with
      | Ok df =>
          let obj := List.length (heap w) in
          (Ok obj, mkWorld (Some (path, obj)) (heap w ++ [df])%list ran (page w))
      | Raise e => (Raise e, mkWorld (cache w) (heap w) ran (page w))
      end in
    match cache w with
    | Some (key, obj) => if String.eqb key path then (Ok obj, w) else miss
    | None => miss
    end.

Definition sidebar_filters (df : DataFrame) : action DataFrame :=
  _ <~ render SidebarHeader ;;
  col <~ lift (getitem df "Month") ;;
  let options := unique cell_eqb col in
  _ <~ render (Selectbox options) ;;
  let month_ := selectbox options in
  lift (month_filter df month_).

(** [px.bar] and [px.pie] take the frame as it is and look the named
    columns up in it. *)
Definition px (df : DataFrame) (names : list string) : result DataFrame :=
  match first_missing df names with
  | Some _ => Raise ValueError
  | None => Ok df
  end.

Definition plot_revenue_by_day (df : DataFrame) : action unit :=
  fig <~ lift (px df ["Date"; "Total"; "City"]) ;;
  render (PlotlyChart RevenueByDay fig).

Definition plot_revenue_by_product (df : DataFrame) : action unit :=
  df_prod <~ lift (groupby_agg df ["Product line"; "City"] "Total" agg_sum) ;;
  fig <~ lift (px df_prod ["Total"; "Product line"; "City"]) ;;
  render (PlotlyChart RevenueByProduct fig).

Definition plot_revenue_by_city (df : DataFrame) : action unit :=
  city_total <~ lift (groupby_agg df ["City"] "Total" agg_sum) ;;
  fig <~ lift (px city_total ["City"; "Total"]) ;;
  render (PlotlyChart RevenueByCity fig).

Definition plot_revenue_by_payment (df : DataFrame) : action unit :=
  fig <~ lift (px df ["Total"; "Payment"]) ;;
  render (PlotlyChart RevenueByPayment fig).

Definition plot_rating_by_city (df : DataFrame) : action unit :=
  city_rating <~ lift (groupby_agg df ["City"] "Rating" agg_mean) ;;
  fig <~ lift (px city_rating ["City"; "Rating"]) ;;
  render (PlotlyChart RatingByCity fig).

Definition main (here : Path) : action unit :=
  _ <~ render Title ;;
  obj <~ load_data (DATA_PATH here) ;;
  df <~ deref obj ;;
  df_filtered <~ sidebar_filters df ;;
  _ <~ render (Columns 2) ;;
  _ <~ render (Columns 3) ;;
  _ <~ plot_revenue_by_day df_filtered ;;
  _ <~ plot_revenue_by_product df_filtered ;;
  _ <~ plot_revenue_by_city df_filtered ;;
  _ <~ plot_revenue_by_payment df_filtered ;;
  _ <~ plot_rating_by_city df_filtered ;;
  render Caption.

End Program.

(** ** Two sorting routines that meet the contract of [argsort]

    An insertion sort on the keys paired with their positions.  With
    [date_leb] a key is put before the equal keys that follow it, so equal
    keys keep their order; with [date_ltb] it is put after them, so equal keys
    come out in reverse order. *)

Definition date_ltb (a b : date) : bool :=
  match date_compare a b with Lt => true | _ => false end.

Fixpoint insert_pair (before : date -> date -> bool) (x : date * nat)
    (l : list (date * nat)) : list (date * nat) :=
  match l with
  | [] => [x]
  | y :: l' =>
      if before (fst x) (fst y) then x :: l else y :: insert_pair before x l'
  end.

Definition insertion_argsort (before : date -> date -> bool) (ks : list date)
  : list nat :=
  map snd (fold_right (insert_pair before) []
             (combine ks (seq 0 (List.length ks)))).

Definition by_key (a b : date * nat) : Prop := date_le (fst a) (fst b).

Definition stable_argsort : list date -> list nat := insertion_argsort date_leb.

Definition reversing_argsort : list date -> list nat := insertion_argsort date_ltb.

(** ** The vocabulary of the specification *)

(** Ascending order of the [Date] cells, the missing dates last. *)
Definition date_cell_le (a b : cell) : Prop :=
  match a, b with
  | Ts d, Ts e => date_le d e
  | Ts _, NaT => True
  | NaT, NaT => True
  | _, _ => False
  end.

Definition sorted_by_date (rs : list row) : Prop :=
  StronglySorted (fun r s => date_cell_le (get r "Date") (get s "Date")) rs.

(** Records of equal date stand in the order they had in the file. *)
Definition stable_order (rs : list row) : Prop :=
  StronglySorted (fun r s => get r "Date" = get s "Date" -> pos r < pos s) rs.

(** [firstOfMonth(date).format("YYYY-MM")] *)
Definition firstOfMonth (d : date) : date := mkDate (year d) (month d) 1.

Definition decimal (n : nat) : string := NilZero.string_of_uint (Nat.to_uint n).

Definition zero_pad (width : nat) (s : string) : string :=
  (string_of_list_ascii (repeat "0"%char (width - String.length s)) ++ s)%string.

Definition format_YYYY_MM (d : date) : string :=
  (zero_pad 4 (decimal (year d)) ++ "-" ++ zero_pad 2 (decimal (month d)))%string.

Definition monthKey (d : date) : string := format_YYYY_MM (firstOfMonth d).

(** Chronological order of the periods; the period of a missing date is last. *)
Definition period_lt (p q : Period) : Prop :=
  match p, q with
  | PeriodM y m, PeriodM y' m' => y < y' \/ (y = y' /\ m < m')
  | PeriodM _ _, PeriodNaT => True
  | PeriodNaT, _ => False
  end.

(** [l] is [l'] with some elements left out, the others in place. *)
Inductive Subsequence {A : Type} : list A -> list A -> Prop :=
| sub_nil : Subsequence [] []
| sub_skip (x : A) (l l' : list A) : Subsequence l l' -> Subsequence l (x :: l')
| sub_keep (x : A) (l l' : list A) : Subsequence l l' -> Subsequence (x :: l) (x :: l').

(** The value of a number cell, a missing value counting for nothing (the sum
    of a column skips it). *)
Definition number_of (c : cell) : Q :=
  match c with Num q => q | _ => 0%Q end.

Definition is_number_or_missing (c : cell) : bool :=
  match c with Num _ | NaN => true | _ => false end.

Definition sum_column (rs : list row) (c : string) : Q :=
  Qsum (map (fun r => number_of (get r c)) rs).

(** The rows of one month, for any month key. *)
Definition rows_of_month (df : DataFrame) (k : cell) : list row :=
  match month_filter df (Some k) with
  | Ok sub => rows sub
  | Raise _ => []
  end.

(** Text of a file from its lines, and a disk with one file. *)
Definition unlines (lines : list string) : string :=
  String.concat (String LF "") lines.

Definition disk (path : Path) (lines : list string) : filesystem :=
  fun p => if String.eqb p path then Some (Content (unlines lines)) else None.

Definition sales_columns : list string :=
  ["Date"; "City"; "Product line"; "Payment"; "Total"; "Rating"].

(** No two of the values are alike. *)
Definition distinct {K : Type} (eqb : K -> K -> bool) (ks : list K) : Prop :=
  StronglySorted (fun a b => eqb a b = false) ks.

(** What the loader does to a parsed row: the date is converted, the month
    key is derived from the converted date. *)
Definition with_month (r : row) : row :=
  set_cell "Month" (month_key (get r "Date")) r.

Definition dated (ts : list cell) (rs : list row) : list row :=
  set_cells "Date" ts rs.

(** ** Files used as examples *)

(** The scenario of the specification: two sales in January, one in
    February. *)
Definition scenario : filesystem :=
  disk "sales.csv"
    [ "Date;City;Product line;Payment;Total;Rating";
      "01/05/2019;CityA;Food;Cash;100,50;7,5";
      "01/12/2019;CityA;Food;Card;50,25;8";
      "02/01/2019;CityB;Toys;Cash;75,00;9" ].

Definition scenario_table : DataFrame :=
  Eval vm_compute in
    match load_data_wrapped stable_argsort scenario "sales.csv" with
    | Ok df => df
    | Raise _ => empty_frame
    end.

(** Two sales on the same day. *)
Definition same_day : filesystem :=
  disk "sales.csv"
    [ "Date;City;Total";
      "01/05/2019;CityA;100,50";
      "01/05/2019;CityB;50,25" ].

Definition same_day_reversed : DataFrame :=
  Eval vm_compute in
    match load_data_wrapped reversing_argsort same_day "sales.csv" with
    | Ok df => df
    | Raise _ => empty_frame
    end.

(** A line whose fields are all empty. *)
Definition missing_fields : filesystem :=
  disk "sales.csv"
    [ "Date;City;Product line;Payment;Total;Rating";
      "01/05/2019;CityA;Food;Cash;100,50;7,5";
      ";;;;;" ].

Definition missing_fields_table : DataFrame :=
  Eval vm_compute in
    match load_data_wrapped stable_argsort missing_fields "sales.csv" with
    | Ok df => df
    | Raise _ => empty_frame
    end.

Definition missing_fields_parsed : DataFrame :=
  Eval vm_compute in
    match read_csv missing_fields "sales.csv" with
    | Ok df => df
    | Raise _ => empty_frame
    end.

(** A sale without a city. *)
Definition missing_city : filesystem :=
  disk "sales.csv"
    [ "Date;City;Total";
      "01/05/2019;CityA;100,50";
      "01/12/2019;;50,25" ].

Definition missing_city_table : DataFrame :=
  Eval vm_compute in
    match load_data_wrapped stable_argsort missing_city "sales.csv" with
    | Ok df => df
    | Raise _ => empty_frame
    end.

Definition missing_city_totals : DataFrame :=
  Eval vm_compute in
    match groupby_agg missing_city_table ["City"] "Total" agg_sum with
    | Ok df => df
    | Raise _ => empty_frame
    end.

Definition has_city (r : row) : bool := negb (isna (get r "City")).

(** A file with a header and no sale. *)
Definition header_only : filesystem :=
  disk "sales.csv" [ "Date;City;Product line;Payment;Total;Rating" ].

Definition header_only_table : DataFrame :=
  Eval vm_compute in
    match load_data_wrapped stable_argsort header_only "sales.csv" with
    | Ok df => df
    | Raise _ => empty_frame
    end.

(** The process after a first call of the loader on the scenario. *)
Definition after_first_load : world :=
  Eval vm_compute in snd (load_data stable_argsort scenario "sales.csv" initial).

(** A text where a number is expected. *)
Definition text_total : filesystem :=
  disk "sales.csv"
    [ "Date;City;Total";
      "01/05/2019;CityA;100,50";
      "01/12/2019;CityA;abc" ].

Definition text_total_table : DataFrame :=
  Eval vm_compute in
    match load_data_wrapped stable_argsort text_total "sales.csv" with
    | Ok df => df
    | Raise _ => empty_frame
    end.

(** A [Date] value that is present and is not a month/day/year date. *)
Definition malformed_date (c : cell) : Prop :=
  match c with
  | Str s => is_ok (strptime s) = false
  | Num _ => True
  | _ => False
  end.

(** The scenario of the malformed date. *)
Definition bad_date : filesystem :=
  disk "/app/data/supermarket_sales.csv"
    [ "Date;City;Total";
      "01/05/2019;CityA;100,50";
      "13/40/2019;CityA;50,25" ].

(** A total written with a point between the thousands. *)
Definition thousands : filesystem :=
  disk "sales.csv"
    [ "Date;Total";
      "01/05/2019;1234,56";
      "01/12/2019;1.234,56" ].

Definition thousands_table : DataFrame :=
  Eval vm_compute in
    match load_data_wrapped stable_argsort thousands "sales.csv" with
    | Ok df => df
    | Raise _ => empty_frame
    end.

(** Text of a table: the fields of a line joined by semicolons, each line
    ended by a line feed. *)
Definition line_of (fields : list string) : string := String.concat ";" fields.

Definition text_of (table : list (list string)) : string :=
  String.concat "" (map (fun fields => (line_of fields ++ String LF "")%string) table).

(** A field without separator, line end or quote. *)
Definition plain_char (c : ascii) : bool :=
  negb (is_delimiter c || is_terminator c || Ascii.eqb c "034").

Definition plain (s : string) : bool := forallb plain_char (list_ascii_of_string s).

Definition blank_line (fields : list string) : bool :=
  forallb is_blank (list_ascii_of_string (line_of fields)).

Definition well_formed (table : list (list string)) : Prop :=
  Forall (fun fields => forallb plain fields = true /\ blank_line fields = false) table.

(** A string of decimal digits and the natural number it writes. *)
Definition digits (s : string) : bool := forallb is_digit (list_ascii_of_string s).

Definition digits_value (s : string) : N :=
  fold_left (fun acc c => (10 * acc + N.of_nat (digit_val c))%N)
            (list_ascii_of_string s) 0%N.

Definition two_lines : list (list string) :=
  [ [ "Date"; "City"; "Total" ];
    [ "01/05/2019"; "CityA"; "1234,56" ] ].

(** ** The page once the table is loaded *)

(** The world with more widgets on the page. *)
Definition add_page (ws : list widget) (w : world) : world :=
  mkWorld (cache w) (heap w) (executions w) (page w ++ ws)%list.

(** An action that only draws: its result and what it adds to the page do
    not depend on the world. *)
Definition draws {A : Type} (m : action A) (r : result A) (ws : list widget) : Prop :=
  forall w, m w = (r, add_page ws w).

(** What [main] does with the table the loader returned. *)
Definition dashboard (selectbox : list cell -> option cell) (df : DataFrame)
  : action unit :=
  df_filtered <~ sidebar_filters selectbox df ;;
  _ <~ render (Columns 2) ;;
  _ <~ render (Columns 3) ;;
  _ <~ plot_revenue_by_day df_filtered ;;
  _ <~ plot_revenue_by_product df_filtered ;;
  _ <~ plot_revenue_by_city df_filtered ;;
  _ <~ plot_revenue_by_payment df_filtered ;;
  _ <~ plot_rating_by_city df_filtered ;;
  render Caption.

(** The scenario of the specification at the place [main] reads. *)
Definition app_scenario : filesystem :=
  disk "/app/data/supermarket_sales.csv"
    [ "Date;City;Product line;Payment;Total;Rating";
      "01/05/2019;CityA;Food;Cash;100,50;7,5";
      "01/12/2019;CityA;Food;Card;50,25;8";
      "02/01/2019;CityB;Toys;Cash;75,00;9" ].

Definition empty_disk : filesystem := fun _ => None.

(** [st.sidebar.selectbox] left at its default: the first option. *)
Definition first_option (options : list cell) : option cell := hd_error options.

Definition after_main : world :=
  Eval vm_compute in
    snd (main stable_argsort first_option app_scenario "/app" initial).

Definition after_main_page : list widget :=
  Eval vm_compute in page after_main.

(** ** More vocabulary *)

(** A row that has a value in each key of a grouping. *)
Definition keyed (by_ : list string) (r : row) : bool :=
  negb (existsb isna (group_key by_ r)).

(** A rating (or any number cell) between two bounds; a missing value is
    within any bounds. *)
Definition within (lo hi : Q) (c : cell) : Prop :=
  match c with
  | Num q => (lo <= q /\ q <= hi)%Q
  | NaN => True
  | _ => False
  end.

(** A date of the calendar. *)
Definition calendar_date (d : date) : Prop :=
  1 <= month d <= 12 /\ 1 <= day d <= days_in_month (year d) (month d).

(** A date written month/day/year, each part with its leading zeros. *)
Definition strftime (d : date) : string :=
  (zero_pad 2 (decimal (month d)) ++ "/" ++ zero_pad 2 (decimal (day d)) ++ "/"
   ++ zero_pad 4 (decimal (year d)))%string.

Definition no_slash (s : string) : bool :=
  forallb (fun c => negb (Ascii.eqb "/" c)) (list_ascii_of_string s).

Definition reads_as (directive : list ascii -> option nat) (s : string) (n : nat)
  : bool :=
  match directive (list_ascii_of_string s) with
  | Some n' => (n' =? n) && no_slash s
  | None => false
  end.

(** A file without the column of the cities. *)
Definition no_city : filesystem :=
  disk "/app/data/supermarket_sales.csv"
    [ "Date;Total"; "01/05/2019;100,50" ].

Definition no_city_table : DataFrame :=
  Eval vm_compute in
    match load_data_wrapped stable_argsort no_city (DATA_PATH "/app") with
    | Ok df => df
    | Raise _ => empty_frame
    end.

(** * Properties *)

(** ** Cells of a row *)

Lemma assoc_update_same (k : string) (v : cell) (l : list (string * cell)) :
  assoc k (update k v l) = Some v.
Proof.
  induction l as [|[k' v'] l IH]; simpl.
  - now rewrite String.eqb_refl.
  - destruct (String.eqb k k') eqn:E; simpl; rewrite ?String.eqb_refl, ?E; auto.
Qed.

Lemma assoc_update_other (k k' : string) (v : cell) (l : list (string * cell)) :
  k <> k' -> assoc k' (update k v l) = assoc k' l.
Proof.
  intros Hne. induction l as [|[k0 v0] l IH]; simpl.
  - apply String.eqb_neq in Hne. rewrite String.eqb_sym in Hne. now rewrite Hne.
  - destruct (String.eqb k k0) eqn:E; simpl.
    + apply String.eqb_eq in E. subst k0.
      apply String.eqb_neq in Hne. rewrite String.eqb_sym in Hne. now rewrite Hne.
    + destruct (String.eqb k' k0); auto.
Qed.

Lemma get_set_cell_same (c : string) (v : cell) (r : row) :
  get (set_cell c v r) c = v.
Proof. unfold get, set_cell; simpl. now rewrite assoc_update_same. Qed.

Lemma get_set_cell_other (c c' : string) (v : cell) (r : row) :
  c <> c' -> get (set_cell c v r) c' = get r c'.
Proof. intros H. unfold get, set_cell; simpl. now rewrite assoc_update_other. Qed.

Lemma set_cells_map (c : string) (f : row -> cell) (rs : list row) :
  set_cells c (map f rs) rs = map (fun r => set_cell c (f r) r) rs.
Proof. induction rs; simpl; congruence. Qed.

Lemma set_cells_length (c : string) (vs : list cell) (rs : list row) :
  List.length (set_cells c vs rs) = List.length rs.
Proof.
  revert vs. induction rs as [|r rs IH]; intros [|v vs]; simpl; auto.
Qed.

Lemma set_cells_get_same (c : string) (vs : list cell) (rs : list row) :
  List.length vs = List.length rs ->
  map (fun r => get r c) (set_cells c vs rs) = vs.
Proof.
  revert vs. induction rs as [|r rs IH]; intros [|v vs] H; simpl in *; try discriminate; auto.
  rewrite get_set_cell_same. f_equal. apply IH. lia.
Qed.

Lemma set_cells_get_other (c c' : string) (vs : list cell) (rs : list row) :
  c <> c' ->
  map (fun r => get r c') (set_cells c vs rs) = map (fun r => get r c') rs.
Proof.
  intros Hne. revert vs. induction rs as [|r rs IH]; intros [|v vs]; simpl; auto.
  rewrite get_set_cell_other by assumption. f_equal. apply IH.
Qed.

Lemma set_cells_pos (c : string) (vs : list cell) (rs : list row) :
  map pos (set_cells c vs rs) = map pos rs.
Proof.
  revert vs. induction rs as [|r rs IH]; intros [|v vs]; simpl; auto.
  f_equal. apply IH.
Qed.

Lemma has_column_setitem (df : DataFrame) (c : string) (vs : list cell) :
  has_column (setitem df c vs) c = true.
Proof.
  unfold setitem, has_column; simpl.
  destruct (existsb (String.eqb c) (columns df)) eqn:E; simpl; auto.
  rewrite existsb_app; simpl. rewrite String.eqb_refl. now rewrite orb_true_r.
Qed.

(** ** [to_datetime] *)

Lemma to_datetime1_datetime (c t : cell) :
  to_datetime1 c = Ok t -> is_datetime t = true /\ isna t = isna c.
Proof.
  destruct c; simpl; intros H; try (inversion H; subst; auto; fail).
  destruct (strptime s); simpl in H; inversion H; subst; auto.
Qed.

Lemma to_datetime_spec (col ts : list cell) :
  to_datetime col = Ok ts -> Forall2 (fun c t => to_datetime1 c = Ok t) col ts.
Proof.
  revert ts. induction col as [|c col IH]; simpl; intros ts H.
  - inversion H; constructor.
  - destruct (to_datetime1 c) eqn:E1; simpl in H; try discriminate.
    destruct (to_datetime col) eqn:E2; simpl in H; try discriminate.
    inversion H; subst. constructor; auto.
Qed.

Lemma to_datetime_raises (col : list cell) :
  is_ok (to_datetime col) = false <-> exists c, In c col /\ is_ok (to_datetime1 c) = false.
Proof.
  induction col as [|c col IH]; simpl.
  - split; [discriminate | intros (c & [] & _)].
  - destruct (to_datetime1 c) eqn:E1; simpl.
    + destruct (to_datetime col) eqn:E2; simpl.
      * split; [discriminate|]. intros (c' & [Hc | Hc] & Hf).
        -- subst c'. rewrite E1 in Hf. discriminate.
        -- apply IH. eauto.
      * split; auto. intros _. destruct IH as [IH _].
        destruct (IH eq_refl) as (c' & Hin & Hf). eauto.
    + split; auto. intros _. exists c. rewrite E1. auto.
Qed.

(** ** Lists: positions, permutations, sorted lists, subsequences *)

Lemma take_seq (A : Type) (d : A) (l : list A) :
  take d (seq 0 (List.length l)) l = l.
Proof.
  unfold take. induction l as [|a l IH]; simpl; auto.
  f_equal. rewrite <- seq_shift, map_map. exact IH.
Qed.

Lemma take_perm (A : Type) (d : A) (p : list nat) (l : list A) :
  Permutation p (seq 0 (List.length l)) -> Permutation (take d p l) l.
Proof.
  intros H. apply Permutation_trans with (take d (seq 0 (List.length l)) l).
  - unfold take. now apply Permutation_map.
  - now rewrite take_seq.
Qed.

Lemma take_length (A : Type) (d : A) (p : list nat) (l : list A) :
  List.length (take d p l) = List.length p.
Proof. unfold take. apply length_map. Qed.

Lemma take_app (A : Type) (d : A) (p q : list nat) (l : list A) :
  take d (p ++ q) l = (take d p l ++ take d q l)%list.
Proof. unfold take. apply map_app. Qed.

Lemma take_map (A B : Type) (f : A -> B) (d : A) (p : list nat) (l : list A) :
  map f (take d p l) = take (f d) p (map f l).
Proof.
  unfold take. rewrite map_map. apply map_ext. intros i. now rewrite map_nth.
Qed.

Lemma filter_split_perm (A : Type) (f : A -> bool) (l : list A) :
  Permutation (filter (fun x => negb (f x)) l ++ filter f l) l.
Proof.
  induction l as [|a l IH]; simpl; auto.
  destruct (f a); simpl.
  - apply Permutation_sym, Permutation_cons_app, Permutation_sym, IH.
  - now constructor.
Qed.

Lemma StronglySorted_map (A B : Type) (R : B -> B -> Prop) (f : A -> B) (l : list A) :
  StronglySorted R (map f l) <-> StronglySorted (fun x y => R (f x) (f y)) l.
Proof.
  induction l as [|a l IH]; simpl.
  - split; constructor.
  - split; intros H; inversion H; subst; constructor.
    + now apply IH.
    + rewrite Forall_map in *. assumption.
    + now apply IH.
    + rewrite Forall_map. assumption.
Qed.

Lemma StronglySorted_app (A : Type) (R : A -> A -> Prop) (l1 l2 : list A) :
  StronglySorted R l1 -> StronglySorted R l2 ->
  (forall x y, In x l1 -> In y l2 -> R x y) ->
  StronglySorted R (l1 ++ l2).
Proof.
  intros H1 H2 H. induction l1 as [|a l1 IH]; simpl; auto.
  inversion H1; subst. constructor.
  - apply IH; auto. intros; apply H; simpl; auto.
  - apply Forall_app; split; auto.
    apply Forall_forall. intros y Hy. apply H; simpl; auto.
Qed.

Lemma StronglySorted_weaken (A : Type) (R S : A -> A -> Prop) (l : list A) :
  (forall x y, In x l -> In y l -> R x y -> S x y) ->
  StronglySorted R l -> StronglySorted S l.
Proof.
  intros H HS. induction HS as [|a l HS IH HF]; constructor.
  - apply IH. intros; apply H; simpl; auto.
  - rewrite Forall_forall in *. intros y Hy. apply H; simpl; auto.
Qed.

Lemma Subsequence_In (A : Type) (l l' : list A) (x : A) :
  Subsequence l l' -> In x l -> In x l'.
Proof.
  induction 1; simpl; intros Hin; auto.
  destruct Hin; auto.
Qed.

Lemma Subsequence_sorted (A : Type) (R : A -> A -> Prop) (l l' : list A) :
  Subsequence l l' -> StronglySorted R l' -> StronglySorted R l.
Proof.
  induction 1; intros HS; auto.
  - inversion HS; subst. auto.
  - inversion HS; subst. constructor; auto.
    rewrite Forall_forall in *. intros y Hy. eauto using Subsequence_In.
Qed.

Lemma Subsequence_refl (A : Type) (l : list A) : Subsequence l l.
Proof. induction l; [apply sub_nil | now apply sub_keep]. Qed.

Lemma Subsequence_filter (A : Type) (f : A -> bool) (l : list A) :
  Subsequence (filter f l) l.
Proof.
  induction l as [|a l IH]; simpl; [constructor|].
  destruct (f a); [now apply sub_keep | now apply sub_skip].
Qed.

Lemma Subsequence_map (A B : Type) (f : A -> B) (l l' : list A) :
  Subsequence l l' -> Subsequence (map f l) (map f l').
Proof.
  induction 1; simpl; [apply sub_nil | now apply sub_skip | now apply sub_keep].
Qed.

(** ** The order of dates *)

Lemma date_leb_iff (a b : date) :
  date_leb a b = true <->
  year a < year b \/
  (year a = year b /\ (month a < month b \/ (month a = month b /\ day a <= day b))).
Proof.
  unfold date_leb, date_compare.
  destruct (Nat.compare_spec (year a) (year b));
    destruct (Nat.compare_spec (month a) (month b));
    destruct (Nat.compare_spec (day a) (day b));
    split; intros; try discriminate; try reflexivity; lia.
Qed.

Lemma date_ltb_iff (a b : date) :
  date_ltb a b = true <->
  year a < year b \/
  (year a = year b /\ (month a < month b \/ (month a = month b /\ day a < day b))).
Proof.
  unfold date_ltb, date_compare.
  destruct (Nat.compare_spec (year a) (year b));
    destruct (Nat.compare_spec (month a) (month b));
    destruct (Nat.compare_spec (day a) (day b));
    split; intros; try discriminate; try reflexivity; lia.
Qed.

Lemma date_le_refl (a : date) : date_le a a.
Proof. apply date_leb_iff. lia. Qed.

Lemma date_le_trans (a b c : date) : date_le a b -> date_le b c -> date_le a c.
Proof. unfold date_le. rewrite !date_leb_iff. lia. Qed.

Lemma date_leb_false (a b : date) : date_leb a b = false -> date_le b a.
Proof.
  intros H. unfold date_le. apply date_leb_iff.
  destruct (date_leb a b) eqn:E; try discriminate.
  assert (N : ~ (date_leb a b = true)) by congruence.
  rewrite date_leb_iff in N. lia.
Qed.

Lemma date_ltb_true (a b : date) : date_ltb a b = true -> date_le a b.
Proof. unfold date_le. rewrite date_ltb_iff, date_leb_iff. lia. Qed.

Lemma date_ltb_false (a b : date) : date_ltb a b = false -> date_le b a.
Proof.
  intros H. unfold date_le. apply date_leb_iff.
  assert (N : ~ (date_ltb a b = true)) by congruence.
  rewrite date_ltb_iff in N. lia.
Qed.

Lemma date_compare_eq (a b : date) : date_compare a b = Eq <-> a = b.
Proof.
  unfold date_compare. destruct a as [y m d], b as [y' m' d']; simpl.
  destruct (Nat.compare_spec y y'); destruct (Nat.compare_spec m m');
    destruct (Nat.compare_spec d d');
    split; intros H'; try discriminate; try reflexivity;
    try (inversion H'; lia); subst; reflexivity.
Qed.

(** ** The two insertion sorts meet the contract *)

Section InsertionSort.

Variable before : date -> date -> bool.
Hypothesis before_true : forall a b, before a b = true -> date_le a b.
Hypothesis before_false : forall a b, before a b = false -> date_le b a.

Lemma insert_pair_perm (x : date * nat) (l : list (date * nat)) :
  Permutation (insert_pair before x l) (x :: l).
Proof.
  induction l as [|y l IH]; simpl; auto.
  destruct (before (fst x) (fst y)); auto.
  eapply Permutation_trans; [apply perm_skip, IH | apply perm_swap].
Qed.

Lemma insert_pair_sorted (x : date * nat) (l : list (date * nat)) :
  StronglySorted by_key l -> StronglySorted by_key (insert_pair before x l).
Proof.
  induction 1 as [|y l HS IH HF]; simpl.
  - repeat constructor.
  - destruct (before (fst x) (fst y)) eqn:E.
    + constructor; [constructor; auto|].
      constructor; [apply before_true, E|].
      rewrite Forall_forall in *. intros z Hz.
      eapply date_le_trans; [apply before_true, E | apply HF, Hz].
    + constructor; auto.
      rewrite Forall_forall in *. intros z Hz.
      apply (Permutation_in _ (insert_pair_perm x l)) in Hz.
      destruct Hz as [<- | Hz]; [apply before_false, E | apply HF, Hz].
Qed.

Lemma isort_perm (l : list (date * nat)) :
  Permutation (fold_right (insert_pair before) [] l) l.
Proof.
  induction l as [|x l IH]; simpl; auto.
  eapply Permutation_trans; [apply insert_pair_perm | now constructor].
Qed.

Lemma isort_sorted (l : list (date * nat)) :
  StronglySorted by_key (fold_right (insert_pair before) [] l).
Proof.
  induction l as [|x l IH]; simpl; [constructor | now apply insert_pair_sorted].
Qed.

Lemma snd_combine_seq (ks : list date) (a : nat) :
  map snd (combine ks (seq a (List.length ks))) = seq a (List.length ks).
Proof.
  revert a. induction ks as [|k ks IH]; intros a; simpl; auto.
  f_equal. apply IH.
Qed.

Lemma in_combine_seq (ks : list date) (a : nat) (k : date) (i : nat) :
  In (k, i) (combine ks (seq a (List.length ks))) ->
  a <= i /\ nth (i - a) ks epoch = k.
Proof.
  revert a. induction ks as [|k0 ks IH]; intros a; simpl; [tauto|].
  intros [H | H].
  - inversion H; subst. rewrite Nat.sub_diag. auto.
  - apply IH in H. destruct H as [Hle Hn]. split; [lia|].
    replace (i - a) with (S (i - S a)) by lia. exact Hn.
Qed.

Lemma insertion_argsort_contract : argsort_contract (insertion_argsort before).
Proof.
  intros ks. unfold insertion_argsort.
  set (ps := combine ks (seq 0 (List.length ks))).
  split.
  - rewrite <- (snd_combine_seq ks 0). apply Permutation_map, isort_perm.
  - unfold take. rewrite map_map.
    rewrite (map_ext_in _ fst).
    + apply StronglySorted_map. apply isort_sorted.
    + intros [k i] Hin. simpl.
      apply (Permutation_in _ (isort_perm ps)) in Hin.
      apply in_combine_seq in Hin. destruct Hin as [_ Hn].
      now rewrite Nat.sub_0_r in Hn.
Qed.

End InsertionSort.

Lemma stable_argsort_contract : argsort_contract stable_argsort.
Proof.
  apply insertion_argsort_contract; [auto | apply date_leb_false].
Qed.

Lemma reversing_argsort_contract : argsort_contract reversing_argsort.
Proof.
  apply insertion_argsort_contract; [apply date_ltb_true | apply date_ltb_false].
Qed.

(** ** [nargsort] and [sort_values] under the contract *)

Lemma Forall2_length' (A B : Type) (P : A -> B -> Prop) (l : list A) (l' : list B) :
  Forall2 P l l' -> List.length l = List.length l'.
Proof. induction 1; simpl; auto. Qed.

Lemma nth_map_lt (A B : Type) (f : A -> B) (l : list A) (d : A) (d' : B) (j : nat) :
  j < List.length l -> nth j (map f l) d' = f (nth j l d).
Proof.
  intros H. rewrite (nth_indep _ d' (f d)) by now rewrite length_map.
  apply map_nth.
Qed.

Lemma date_cell_le_Ts (ds : list date) :
  StronglySorted date_le ds -> StronglySorted date_cell_le (map Ts ds).
Proof. intros H. apply StronglySorted_map. exact H. Qed.

Section Contract.

Variable argsort : list date -> list nat.
Hypothesis contract : argsort_contract argsort.

Lemma nargsort_perm (items : list cell) :
  Permutation (nargsort argsort items) (seq 0 (List.length items)).
Proof.
  pose (idx := seq 0 (List.length items)).
  pose (mask := fun i => isna (nth i items NaN)).
  pose (nn := filter (fun i => negb (mask i)) idx).
  pose (ks := map as_date (take NaN nn items)).
  change (Permutation (take 0 (argsort ks) nn ++ filter mask idx) idx).
  apply Permutation_trans with (nn ++ filter mask idx)%list.
  - apply Permutation_app_tail. apply take_perm.
    destruct (contract ks) as [Hp _].
    replace (List.length nn) with (List.length ks); auto.
    unfold ks. now rewrite length_map, take_length.
  - apply filter_split_perm.
Qed.

Lemma nargsort_sorted (items : list cell) :
  Forall (fun c => is_datetime c = true) items ->
  StronglySorted date_cell_le (take NaN (nargsort argsort items) items).
Proof.
  intros Hdt.
  pose (idx := seq 0 (List.length items)).
  pose (mask := fun i => isna (nth i items NaN)).
  pose (nn := filter (fun i => negb (mask i)) idx).
  pose (ks := map as_date (take NaN nn items)).
  change (StronglySorted date_cell_le
            (take NaN (take 0 (argsort ks) nn ++ filter mask idx) items)).
  assert (Hnth : forall i, i < List.length items ->
                           is_datetime (nth i items NaN) = true).
  { intros i Hi. rewrite Forall_forall in Hdt. apply Hdt, nth_In, Hi. }
  assert (Hlen : List.length ks = List.length nn).
  { unfold ks. now rewrite length_map, take_length. }
  destruct (contract ks) as [Hp Hs].
  assert (Hfront : take NaN (take 0 (argsort ks) nn) items
                   = map Ts (take epoch (argsort ks) ks)).
  { unfold take. rewrite !map_map. apply map_ext_in. intros j Hj.
    apply (Permutation_in _ Hp) in Hj. apply in_seq in Hj.
    assert (Hjn : j < List.length nn) by lia.
    assert (Hin : In (nth j nn 0) nn) by now apply nth_In.
    unfold nn in Hin. apply filter_In in Hin. destruct Hin as [Hidx Hm].
    apply in_seq in Hidx. fold nn in Hm, Hidx.
    unfold ks, take. rewrite map_map.
    rewrite (nth_map_lt (fun i => as_date (nth i items NaN)) nn 0 epoch Hjn).
    specialize (Hnth (nth j nn 0) ltac:(lia)).
    unfold mask in Hm.
    destruct (nth (nth j nn 0) items NaN); simpl in *; try discriminate;
      reflexivity. }
  rewrite take_app, Hfront.
  apply StronglySorted_app.
  - now apply date_cell_le_Ts.
  - assert (Hall : Forall (fun c => c = NaT) (take NaN (filter mask idx) items)).
    { unfold take. rewrite Forall_map. apply Forall_forall. intros i Hi.
      apply filter_In in Hi. destruct Hi as [Hi Hm]. apply in_seq in Hi.
      specialize (Hnth i ltac:(lia)). unfold mask in Hm.
      destruct (nth i items NaN); simpl in *; try discriminate; reflexivity. }
    induction Hall as [|c l Hc Hl IH]; constructor; auto.
    subst c. eapply Forall_impl; [|exact Hl]. intros c ->. exact I.
  - intros x y Hx Hy. apply in_map_iff in Hx. destruct Hx as (d & <- & _).
    unfold take in Hy. apply in_map_iff in Hy. destruct Hy as (i & <- & Hi).
    apply filter_In in Hi. destruct Hi as [Hi Hm]. apply in_seq in Hi.
    specialize (Hnth i ltac:(lia)). unfold mask in Hm.
    destruct (nth i items NaN); simpl in *; try discriminate; exact I.
Qed.

End Contract.

(** ** The shape of a loaded table *)

Lemma load_data_wrapped_inv (argsort : list date -> list nat) (fs : filesystem)
    (path : Path) (df : DataFrame) :
  load_data_wrapped argsort fs path = Ok df ->
  exists df0 ts,
    read_csv fs path = Ok df0 /\
    has_column df0 "Date" = true /\
    to_datetime (map (fun r => get r "Date") (rows df0)) = Ok ts /\
    has_column df "Month" = true /\
    rows df = map with_month
                (take empty_row (nargsort argsort ts) (dated ts (rows df0))).
Proof.
  unfold load_data_wrapped. intros H.
  destruct (read_csv fs path) as [df0|e] eqn:E0; simpl in H; try discriminate.
  unfold getitem in H at 1.
  destruct (has_column df0 "Date") eqn:EC; simpl in H; try discriminate.
  destruct (to_datetime _) as [ts|e] eqn:ET; simpl in H; try discriminate.
  unfold sort_values, getitem in H.
  rewrite has_column_setitem in H. simpl in H.
  rewrite EC in H. unfold has_column in H at 1. simpl columns in H.
  unfold has_column in EC. rewrite EC in H. simpl in H.
  inversion H; subst df; clear H.
  exists df0, ts. repeat split; auto.
  - apply has_column_setitem.
  - simpl. rewrite set_cells_get_same.
    + unfold dated. rewrite map_map, set_cells_map. reflexivity.
    + apply to_datetime_spec, Forall2_length' in ET.
      rewrite length_map in ET. now symmetry.
Qed.

Lemma with_month_date (r : row) : get (with_month r) "Date" = get r "Date".
Proof. unfold with_month. apply get_set_cell_other. discriminate. Qed.

Lemma with_month_month (r : row) :
  get (with_month r) "Month" = month_key (get r "Date").
Proof. unfold with_month. apply get_set_cell_same. Qed.

Lemma with_month_pos (r : row) : pos (with_month r) = pos r.
Proof. reflexivity. Qed.

Lemma with_month_other (r : row) (c : string) :
  c <> "Month" -> get (with_month r) c = get r c.
Proof. intros H. unfold with_month. apply get_set_cell_other. congruence. Qed.

(** The month key of every row of a loaded table is the period of its date. *)
Lemma loaded_month (argsort : list date -> list nat) (fs : filesystem)
    (path : Path) (df : DataFrame) (r : row) :
  load_data_wrapped argsort fs path = Ok df -> In r (rows df) ->
  get r "Month" = month_key (get r "Date").
Proof.
  intros H Hin. apply load_data_wrapped_inv in H.
  destruct H as (df0 & ts & _ & _ & _ & _ & Hrows).
  rewrite Hrows in Hin. apply in_map_iff in Hin. destruct Hin as (r0 & <- & _).
  now rewrite with_month_month, with_month_date.
Qed.

Lemma dated_dates (ts : list cell) (rs : list row) :
  List.length ts = List.length rs ->
  map (fun r => get r "Date") (dated ts rs) = ts.
Proof. intros H. unfold dated. now apply set_cells_get_same. Qed.

(** Each row of [dated ts rs] is a row of [rs] with its converted date. *)
Lemma dated_rows (ts : list cell) (rs : list row) (x : row) :
  Forall2 (fun r t => to_datetime1 (get r "Date") = Ok t) rs ts ->
  In x (dated ts rs) ->
  exists r t, In r rs /\ to_datetime1 (get r "Date") = Ok t /\
              x = set_cell "Date" t r.
Proof.
  unfold dated. induction 1 as [|r t rs ts Hrt HF IH]; simpl; [tauto|].
  intros [<- | Hin].
  - exists r, t. auto.
  - destruct (IH Hin) as (r' & t' & ? & ? & ?). exists r', t'. auto.
Qed.

Lemma to_datetime_rows (rs : list row) (ts : list cell) :
  to_datetime (map (fun r => get r "Date") rs) = Ok ts ->
  Forall2 (fun r t => to_datetime1 (get r "Date") = Ok t) rs ts.
Proof.
  intros H. apply to_datetime_spec in H.
  remember (map (fun r => get r "Date") rs) as col eqn:E.
  revert rs E. induction H as [|c t col ts Hct HF IH]; intros rs E.
  - destruct rs; try discriminate. constructor.
  - destruct rs as [|r rs]; try discriminate. inversion E; subst.
    constructor; auto.
Qed.

Section Loaded.

Variable argsort : list date -> list nat.
Hypothesis contract : argsort_contract argsort.
Variable fs : filesystem.
Variable path : Path.
Variable df0 df : DataFrame.
Hypothesis parsed : read_csv fs path = Ok df0.
Hypothesis loaded : load_data_wrapped argsort fs path = Ok df.

(** The loaded rows are the parsed rows, rearranged, each with its date
    converted and its month key added. *)
Lemma loaded_rows :
  exists ts,
    Forall2 (fun r t => to_datetime1 (get r "Date") = Ok t) (rows df0) ts /\
    exists sorted,
      Permutation sorted (dated ts (rows df0)) /\
      StronglySorted date_cell_le (map (fun r => get r "Date") sorted) /\
      rows df = map with_month sorted.
Proof.
  destruct (load_data_wrapped_inv _ _ _ loaded)
    as (df0' & ts & E0 & _ & ET & _ & Hrows).
  rewrite parsed in E0. inversion E0; subst df0'; clear E0.
  apply to_datetime_rows in ET.
  assert (Hlen : List.length ts = List.length (rows df0))
    by (symmetry; eapply Forall2_length'; eauto).
  exists ts. split; auto.
  exists (take empty_row (nargsort argsort ts) (dated ts (rows df0))).
  repeat split; auto.
  - apply take_perm. unfold dated. rewrite set_cells_length, <- Hlen.
    now apply nargsort_perm.
  - rewrite take_map. change (get empty_row "Date") with NaN.
    rewrite dated_dates by assumption.
    apply nargsort_sorted; auto.
    clear - ET. induction ET; constructor; auto.
    now apply to_datetime1_datetime in H.
Qed.

Lemma loaded_sorted : sorted_by_date (rows df).
Proof.
  destruct loaded_rows as (ts & _ & sorted & _ & HS & ->).
  unfold sorted_by_date.
  apply (proj1 (StronglySorted_map date_cell_le (fun r => get r "Date")
                  (map with_month sorted))).
  rewrite map_map. erewrite map_ext; [exact HS|].
  intros r. apply with_month_date.
Qed.

(** Every loaded row comes from a parsed row at the same position. *)
Lemma loaded_row_origin (r : row) :
  In r (rows df) ->
  exists r0 t, In r0 (rows df0) /\ to_datetime1 (get r0 "Date") = Ok t /\
               r = with_month (set_cell "Date" t r0).
Proof.
  destruct loaded_rows as (ts & HF & sorted & HP & _ & ->).
  intros Hin. apply in_map_iff in Hin. destruct Hin as (x & <- & Hx).
  apply (Permutation_in _ HP) in Hx.
  destruct (@dated_rows ts (rows df0) x HF Hx) as (r0 & t & ? & ? & ->).
  eauto.
Qed.

Lemma loaded_positions :
  Permutation (map pos (rows df)) (map pos (rows df0)).
Proof.
  destruct loaded_rows as (ts & HF & sorted & HP & _ & ->).
  rewrite map_map. simpl.
  change (fun x : row => pos x) with pos.
  rewrite (Permutation_map pos HP). unfold dated. now rewrite set_cells_pos.
Qed.

End Loaded.

(** ** Distinct values and the partition of a list by a key *)

Section Unique.

Variable K : Type.
Variable eqb : K -> K -> bool.
Hypothesis eqb_refl : forall a, eqb a a = true.
Hypothesis eqb_sym : forall a b, eqb a b = eqb b a.
Hypothesis eqb_trans : forall a b c, eqb a b = true -> eqb b c = true -> eqb a c = true.

Lemma unique_from_distinct (seen l : list K) :
  distinct eqb (unique_from eqb seen l) /\
  Forall (fun k => existsb (eqb k) seen = false) (unique_from eqb seen l).
Proof.
  revert seen. induction l as [|x l IH]; intros seen; simpl.
  - split; constructor.
  - destruct (existsb (eqb x) seen) eqn:E.
    + apply IH.
    + destruct (IH (x :: seen)) as [Hd Hs]. split.
      * constructor; auto. eapply Forall_impl; [|exact Hs].
        intros k Hk. simpl in Hk. apply orb_false_iff in Hk.
        rewrite eqb_sym. tauto.
      * constructor; auto. eapply Forall_impl; [|exact Hs].
        intros k Hk. simpl in Hk. apply orb_false_iff in Hk. tauto.
Qed.

Lemma unique_from_covers (seen l : list K) (x : K) :
  In x l ->
  existsb (eqb x) seen = true \/
  exists k, In k (unique_from eqb seen l) /\ eqb x k = true.
Proof.
  revert seen. induction l as [|x0 l IH]; intros seen; simpl; [tauto|].
  intros [-> | Hin].
  - destruct (existsb (eqb x) seen) eqn:E; auto.
    right. exists x. simpl. auto.
  - destruct (existsb (eqb x0) seen) eqn:E.
    + apply IH, Hin.
    + destruct (IH (x0 :: seen) Hin) as [H | (k & Hk & Hxk)].
      * simpl in H. apply orb_true_iff in H. destruct H as [H | H]; auto.
        right. exists x0. simpl. auto.
      * right. exists k. simpl. auto.
Qed.

Lemma unique_from_sub (seen l : list K) : Subsequence (unique_from eqb seen l) l.
Proof.
  revert seen. induction l as [|x l IH]; intros seen; simpl; [constructor|].
  destruct (existsb (eqb x) seen); [apply sub_skip | apply sub_keep]; apply IH.
Qed.

Lemma unique_distinct (l : list K) : distinct eqb (unique eqb l).
Proof. apply unique_from_distinct. Qed.

Lemma unique_covers (l : list K) (x : K) :
  In x l -> exists k, In k (unique eqb l) /\ eqb x k = true.
Proof.
  intros H. destruct (unique_from_covers [] l x H) as [H' | H']; auto.
  discriminate.
Qed.

Lemma unique_sub (l : list K) : Subsequence (unique eqb l) l.
Proof. apply unique_from_sub. Qed.

Lemma distinct_NoDup (ks : list K) : distinct eqb ks -> NoDup ks.
Proof.
  induction 1 as [|k ks Hd IH HF]; constructor; auto.
  intros Hin. rewrite Forall_forall in HF. specialize (HF k Hin).
  now rewrite eqb_refl in HF.
Qed.

(** The rows of each key, put side by side, are the rows. *)
Lemma partition_by_key (A : Type) (key : A -> K) (ks : list K) (l : list A) :
  distinct eqb ks ->
  (forall x, In x l -> exists k, In k ks /\ eqb (key x) k = true) ->
  Permutation (flat_map (fun k => filter (fun x => eqb (key x) k) l) ks) l.
Proof.
  intros Hd. revert l. induction Hd as [|k ks Hd IH HF]; intros l Hc; simpl.
  - destruct l as [|x l]; auto.
    destruct (Hc x (or_introl eq_refl)) as (k & [] & _).
  - set (l' := filter (fun x => negb (eqb (key x) k)) l).
    assert (Hsame : flat_map (fun k0 => filter (fun x => eqb (key x) k0) l) ks
                    = flat_map (fun k0 => filter (fun x => eqb (key x) k0) l') ks).
    { clear IH Hd Hc. induction HF as [|k0 ks Hk0 HF IH]; simpl; auto.
      rewrite IH. f_equal. unfold l'. clear IH l'.
      induction l as [|x l IHl]; simpl; auto.
      destruct (eqb (key x) k) eqn:Ek; simpl.
      - destruct (eqb (key x) k0) eqn:Ek0; auto.
        rewrite eqb_sym in Ek.
        assert (Hkk : eqb k k0 = true) by (eapply eqb_trans; eauto).
        rewrite Hkk in Hk0. discriminate.
      - destruct (eqb (key x) k0); rewrite IHl; auto. }
    rewrite Hsame.
    apply Permutation_trans with (filter (fun x => eqb (key x) k) l ++ l')%list.
    + apply Permutation_app_head. apply IH.
      intros x Hx. unfold l' in Hx. apply filter_In in Hx. destruct Hx as [Hx Hn].
      destruct (Hc x Hx) as (k0 & [-> | Hk0] & He); eauto.
      rewrite He in Hn. discriminate.
    + eapply Permutation_trans; [apply Permutation_app_comm|].
      apply filter_split_perm.
Qed.

End Unique.

(** ** Identity of cells and of group keys *)

Lemma cell_eqb_refl (a : cell) : cell_eqb a a = true.
Proof.
  destruct a; simpl; auto.
  - apply Qeq_bool_refl.
  - apply String.eqb_refl.
  - now rewrite (proj2 (date_compare_eq d d) eq_refl).
Qed.

Lemma date_eqb_sym (d e : date) :
  match date_compare d e with Eq => true | _ => false end =
  match date_compare e d with Eq => true | _ => false end.
Proof.
  destruct (date_compare d e) eqn:E1; destruct (date_compare e d) eqn:E2; auto.
  - apply date_compare_eq in E1. subst e.
    rewrite (proj2 (date_compare_eq d d) eq_refl) in E2. discriminate.
  - apply date_compare_eq in E1. subst e.
    rewrite (proj2 (date_compare_eq d d) eq_refl) in E2. discriminate.
  - apply date_compare_eq in E2. subst e.
    rewrite (proj2 (date_compare_eq d d) eq_refl) in E1. discriminate.
  - apply date_compare_eq in E2. subst e.
    rewrite (proj2 (date_compare_eq d d) eq_refl) in E1. discriminate.
Qed.

Lemma cell_eqb_sym (a b : cell) : cell_eqb a b = cell_eqb b a.
Proof.
  destruct a, b; simpl; auto.
  - apply Qeq_bool_comm.
  - apply String.eqb_sym.
  - apply date_eqb_sym.
Qed.

Lemma cell_eqb_trans (a b c : cell) :
  cell_eqb a b = true -> cell_eqb b c = true -> cell_eqb a c = true.
Proof.
  destruct a, b; simpl; try discriminate; destruct c; simpl; try discriminate; auto.
  - apply Qeq_bool_trans.
  - intros H1 H2. apply String.eqb_eq in H1, H2. subst. apply String.eqb_refl.
  - intros H1 H2.
    destruct (date_compare d d0) eqn:E1; try discriminate.
    destruct (date_compare d0 d1) eqn:E2; try discriminate.
    apply date_compare_eq in E1, E2. subst.
    now rewrite (proj2 (date_compare_eq d1 d1) eq_refl).
Qed.

Lemma cell_eqb_Str (s : string) (c : cell) : cell_eqb c (Str s) = true <-> c = Str s.
Proof.
  destruct c; simpl; split; intros H; try discriminate.
  - apply String.eqb_eq in H. now subst.
  - inversion H. apply String.eqb_refl.
Qed.

Lemma key_eqb_refl (a : list cell) : key_eqb a a = true.
Proof. induction a; simpl; auto. now rewrite cell_eqb_refl. Qed.

Lemma key_eqb_sym (a b : list cell) : key_eqb a b = key_eqb b a.
Proof.
  revert b. induction a as [|x a IH]; intros [|y b]; simpl; auto.
  now rewrite cell_eqb_sym, IH.
Qed.

Lemma key_eqb_trans (a b c : list cell) :
  key_eqb a b = true -> key_eqb b c = true -> key_eqb a c = true.
Proof.
  revert b c. induction a as [|x a IH]; intros [|y b] [|z c]; simpl;
    try discriminate; auto.
  intros H1 H2. apply andb_true_iff in H1, H2. destruct H1, H2.
  apply andb_true_iff. split; [eapply cell_eqb_trans | eapply IH]; eauto.
Qed.

(** ** The month filter *)

Lemma boolean_index_filter (f : row -> bool) (rs : list row) :
  boolean_index rs (map f rs) = filter f rs.
Proof. induction rs as [|r rs IH]; simpl; auto. destruct (f r); now rewrite IH. Qed.

Lemma month_filter_rows (df : DataFrame) (m : option cell) :
  has_column df "Month" = true ->
  month_filter df m
  = Ok (mkFrame (columns df)
                (filter (fun r => eq_scalar m (get r "Month")) (rows df))).
Proof.
  intros H. unfold month_filter, getitem. rewrite H. simpl.
  now rewrite map_map, boolean_index_filter.
Qed.

Lemma rows_of_month_filter (df : DataFrame) (k : cell) :
  has_column df "Month" = true ->
  rows_of_month df k = filter (fun r => eq_scalar (Some k) (get r "Month")) (rows df).
Proof. intros H. unfold rows_of_month. now rewrite month_filter_rows. Qed.

Lemma eq_scalar_Str (k : string) (c : cell) :
  eq_scalar (Some (Str k)) c = true <-> c = Str k.
Proof.
  unfold eq_scalar. split.
  - intros H. apply andb_true_iff in H. now apply cell_eqb_Str.
  - intros ->. simpl. apply String.eqb_refl.
Qed.

Lemma month_key_Str (c : cell) : exists s, month_key c = Str s.
Proof. unfold month_key. eauto. Qed.

(** ** What the parser and the date conversion produce *)

Lemma convert_not_datetime (numeric : bool) (s : string) :
  is_datetime (convert numeric s) = false.
Proof.
  unfold convert. destruct (is_na_value s); auto.
  destruct numeric; auto. destruct (parse_number s); auto.
Qed.

Lemma convert_isna (numeric : bool) (s : string) :
  isna (convert numeric s) = is_na_value s.
Proof.
  unfold convert. destruct (is_na_value s); auto.
  destruct numeric; auto. destruct (parse_number s); auto.
Qed.

Lemma assoc_In (k : string) (l : list (string * cell)) (v : cell) :
  assoc k l = Some v -> In (k, v) l.
Proof.
  induction l as [|[k' v'] l IH]; simpl; [discriminate|].
  destruct (String.eqb k k') eqn:E.
  - intros H. inversion H; subst. apply String.eqb_eq in E. subst. auto.
  - auto.
Qed.

Lemma parse_table_cells (lines : list (list string)) (df0 : DataFrame)
    (r : row) (c : string) :
  parse_table lines = Ok df0 -> In r (rows df0) -> is_datetime (get r c) = false.
Proof.
  unfold parse_table. destruct lines as [|header data]; [discriminate|].
  destruct (existsb _ data); [discriminate|].
  intros H. inversion H; subst; clear H. simpl.
  intros Hin. apply in_map_iff in Hin. destruct Hin as ([i l] & <- & _).
  unfold get; simpl.
  destruct (assoc c _) as [v|] eqn:E; auto.
  apply assoc_In in E. apply in_map_iff in E.
  destruct E as ([name j] & E & _). inversion E; subst.
  apply convert_not_datetime.
Qed.

Lemma read_csv_cells (fs : filesystem) (path : Path) (df0 : DataFrame)
    (r : row) (c : string) :
  read_csv fs path = Ok df0 -> In r (rows df0) -> is_datetime (get r c) = false.
Proof.
  unfold read_csv. destruct (fs path) as [[|text]|]; try discriminate.
  apply parse_table_cells.
Qed.

Lemma digit_val_bound (a : ascii) : is_digit a = true -> digit_val a <= 9.
Proof.
  unfold is_digit, digit_val. intros H. apply andb_true_iff in H.
  destruct H as [H1 H2]. apply Nat.leb_le in H1, H2. lia.
Qed.

Lemma directive_m_range (s : list ascii) (m : nat) :
  directive_m s = Some m -> 1 <= m <= 12.
Proof.
  unfold directive_m. destruct s as [|a [|b [|c s]]]; try discriminate.
  - destruct (is_digit a) eqn:Ea; cbn [andb]; try discriminate.
    destruct (1 <=? digit_val a) eqn:E1; try discriminate.
    intros H; inversion H; subst. apply Nat.leb_le in E1.
    apply digit_val_bound in Ea. lia.
  - destruct (is_digit a && is_digit b && (1 <=? 10 * digit_val a + digit_val b)
              && (10 * digit_val a + digit_val b <=? 12)) eqn:E; try discriminate.
    intros H; inversion H; subst.
    apply andb_true_iff in E. destruct E as [E H12].
    apply andb_true_iff in E. destruct E as [E H1].
    apply Nat.leb_le in H1, H12. lia.
Qed.

Lemma strptime_range (s : string) (d : date) :
  strptime s = Ok d ->
  1677 <= year d <= 2262 /\ 1 <= month d <= 12.
Proof.
  unfold strptime.
  destruct (split _ _) as [|sm [|sd [|sy [|? ?]]]]; try discriminate.
  destruct (directive_m sm) as [m|] eqn:Em; try discriminate.
  destruct (directive_d sd) as [dd|]; try discriminate.
  destruct (directive_Y sy) as [y|]; try discriminate.
  destruct ((y =? 0) || (days_in_month y m <? dd)); try discriminate.
  destruct (date_leb Timestamp_min _ && date_leb _ Timestamp_max) eqn:E;
    try discriminate.
  intros H; inversion H; subst; clear H. simpl.
  apply andb_true_iff in E. destruct E as [E1 E2].
  apply date_leb_iff in E1, E2. simpl in E1, E2.
  apply directive_m_range in Em. lia.
Qed.

(** The text pandas gives a monthly period is the specification's
    ["YYYY-MM"], for the years a timestamp can hold. *)
Lemma year_table :
  forallb (fun y =>
    String.eqb
      (string_of_list_ascii
         [digit_char (y / 1000); digit_char (y / 100); digit_char (y / 10);
          digit_char y])
      (zero_pad 4 (decimal y))) (seq 1677 586) = true.
Proof. vm_compute. reflexivity. Qed.

Lemma month_table :
  forallb (fun m =>
    String.eqb (string_of_list_ascii [digit_char (m / 10); digit_char m])
               (zero_pad 2 (decimal m))) (seq 1 12) = true.
Proof. vm_compute. reflexivity. Qed.

Lemma period_str_monthKey (d : date) :
  1677 <= year d <= 2262 -> 1 <= month d <= 12 ->
  period_str (to_period_M (Ts d)) = monthKey d.
Proof.
  intros Hy Hm.
  pose proof year_table as TY. rewrite forallb_forall in TY.
  specialize (TY (year d)). rewrite String.eqb_eq in TY.
  pose proof month_table as TM. rewrite forallb_forall in TM.
  specialize (TM (month d)). rewrite String.eqb_eq in TM.
  unfold monthKey, format_YYYY_MM, firstOfMonth. cbn [year month].
  rewrite <- TY by (apply in_seq; lia).
  rewrite <- TM by (apply in_seq; lia).
  reflexivity.
Qed.

Lemma loaded_date_range (argsort : list date -> list nat)
    (contract : argsort_contract argsort) (fs : filesystem) (path : Path)
    (df : DataFrame) (r : row) (d : date) :
  load_data_wrapped argsort fs path = Ok df ->
  In r (rows df) -> get r "Date" = Ts d ->
  1677 <= year d <= 2262 /\ 1 <= month d <= 12.
Proof.
  intros H Hin Hd.
  destruct (@load_data_wrapped_inv argsort fs path df H) as (df0 & ts & E0 & _).
  destruct (@loaded_row_origin argsort contract fs path df0 df E0 H r Hin)
    as (r0 & t & Hr0 & Ht & ->).
  rewrite with_month_date, get_set_cell_same in Hd. subst t.
  pose proof (@read_csv_cells fs path df0 r0 "Date" E0 Hr0) as Hc.
  destruct (get r0 "Date"); simpl in *; try discriminate.
  destruct (strptime s) eqn:Es; simpl in Ht; try discriminate.
  inversion Ht; subst. eapply strptime_range; eauto.
Qed.

Lemma loaded_datetime (argsort : list date -> list nat)
    (contract : argsort_contract argsort) (fs : filesystem) (path : Path)
    (df : DataFrame) (r : row) :
  load_data_wrapped argsort fs path = Ok df ->
  In r (rows df) -> is_datetime (get r "Date") = true.
Proof.
  intros H Hin.
  destruct (@load_data_wrapped_inv argsort fs path df H) as (df0 & ts & E0 & _).
  destruct (@loaded_row_origin argsort contract fs path df0 df E0 H r Hin)
    as (r0 & t & Hr0 & Ht & ->).
  rewrite with_month_date, get_set_cell_same.
  now apply to_datetime1_datetime in Ht.
Qed.

(** * The claims *)

(** ** C2: order and month keys of a loaded table *)




(** ** C3: the month filter *)

(** C3: on a loaded table the month filter returns, for every key, exactly
    the records whose month key is that string (equality of strings, case
    included); without a match it returns the empty table, not an error; the
    results for two different keys share no record; and the results for the
    distinct month keys of the table, put together, are the table. *)
Theorem C3_month_filter_partitions_the_table
    (argsort : list date -> list nat) (fs : filesystem) (path : Path)
    (df : DataFrame) :
  load_data_wrapped argsort fs path = Ok df ->
  (forall k : string,
      exists sub,
        month_filter df (Some (Str k)) = Ok sub /\
        (forall r, In r (rows sub) <-> In r (rows df) /\ get r "Month" = Str k) /\
        ((forall r, In r (rows df) -> get r "Month" <> Str k) -> rows sub = [])) /\
  (forall (k1 k2 : string) (r : row),
      k1 <> k2 ->
      In r (rows_of_month df (Str k1)) -> In r (rows_of_month df (Str k2)) -> False) /\
  Permutation
    (flat_map (rows_of_month df)
              (unique cell_eqb (map (fun r => get r "Month") (rows df))))
    (rows df).
Proof.
  intros H.
  destruct (@load_data_wrapped_inv argsort fs path df H)
    as (df0 & ts & _ & _ & _ & HM & _).
  assert (Hmem : forall k r,
             In r (filter (fun r => eq_scalar (Some (Str k)) (get r "Month")) (rows df))
             <-> In r (rows df) /\ get r "Month" = Str k).
  { intros k r. rewrite filter_In, eq_scalar_Str. tauto. }
  split; [|split].
  - intros k. eexists. split; [apply month_filter_rows, HM|]. simpl. split.
    + apply Hmem.
    + intros Hnone.
      destruct (filter _ (rows df)) as [|r l] eqn:E; auto.
      assert (Hr : In r (r :: l)) by (simpl; auto).
      rewrite <- E in Hr. apply Hmem in Hr. destruct Hr as [Hr Hk].
      destruct (Hnone r Hr Hk).
  - intros k1 k2 r Hne H1 H2.
    rewrite rows_of_month_filter in H1, H2 by exact HM.
    apply Hmem in H1, H2. destruct H1 as [_ H1], H2 as [_ H2].
    rewrite H1 in H2. inversion H2. contradiction.
  - rewrite (flat_map_ext (rows_of_month df)
               (fun k => filter (fun r => cell_eqb (get r "Month") k) (rows df))).
    + apply (partition_by_key cell_eqb_sym cell_eqb_trans).
      * apply unique_distinct. apply cell_eqb_sym.
      * intros r Hr. apply unique_covers; [apply cell_eqb_refl|].
        apply in_map_iff. eauto.
    + intros k. rewrite rows_of_month_filter by exact HM.
      apply filter_ext_in. intros r Hr.
      rewrite (@loaded_month argsort fs path df r H Hr).
      unfold eq_scalar, month_key. reflexivity.
Qed.

Lemma C3_scenario :
  load_data_wrapped stable_argsort scenario "sales.csv" = Ok scenario_table /\
  (exists sub,
      month_filter scenario_table (Some (Str "2019-01")) = Ok sub /\
      (forall r, In r (rows sub) <->
                 In r (rows scenario_table) /\ get r "Month" = Str "2019-01") /\
      ((forall r, In r (rows scenario_table) -> get r "Month" <> Str "2019-01") ->
       rows sub = [])) /\
  Permutation
    (flat_map (rows_of_month scenario_table)
       (unique cell_eqb (map (fun r => get r "Month") (rows scenario_table))))
    (rows scenario_table).
Proof.
  assert (L : load_data_wrapped stable_argsort scenario "sales.csv" = Ok scenario_table)
    by (vm_compute; reflexivity).
  split; [exact L|].
  destruct (@C3_month_filter_partitions_the_table stable_argsort scenario
              "sales.csv" scenario_table L) as (HF & _ & HU).
  split; [exact (HF "2019-01") | exact HU].
Defined.

(** ** C10: the filter keeps the order *)

(** C10: on a loaded table the month filter returns the rows it keeps in the
    order they have in the table; the table being sorted by date, so is every
    filtered table. *)
Theorem C10_month_filter_keeps_order
    (argsort : list date -> list nat) (fs : filesystem) (path : Path)
    (df : DataFrame) :
  argsort_contract argsort ->
  load_data_wrapped argsort fs path = Ok df ->
  forall k : string,
    exists sub,
      month_filter df (Some (Str k)) = Ok sub /\
      Subsequence (rows sub) (rows df) /\
      sorted_by_date (rows sub).
Proof.
  intros contract H k.
  destruct (@load_data_wrapped_inv argsort fs path df H)
    as (df0 & ts & E0 & _ & _ & HM & _).
  eexists. split; [apply month_filter_rows, HM|]. simpl.
  assert (Hsub : Subsequence
                   (filter (fun r => eq_scalar (Some (Str k)) (get r "Month")) (rows df))
                   (rows df)) by apply Subsequence_filter.
  split; [exact Hsub|].
  eapply Subsequence_sorted; [exact Hsub|].
  exact (@loaded_sorted argsort contract fs path df0 df E0 H).
Qed.

Lemma C10_scenario :
  argsort_contract stable_argsort /\
  load_data_wrapped stable_argsort scenario "sales.csv" = Ok scenario_table /\
  exists sub,
    month_filter scenario_table (Some (Str "2019-01")) = Ok sub /\
    Subsequence (rows sub) (rows scenario_table) /\
    sorted_by_date (rows sub).
Proof.
  assert (L : load_data_wrapped stable_argsort scenario "sales.csv" = Ok scenario_table)
    by (vm_compute; reflexivity).
  split; [exact stable_argsort_contract|]. split; [exact L|].
  exact (@C10_month_filter_keeps_order stable_argsort scenario "sales.csv"
           scenario_table stable_argsort_contract L "2019-01").
Defined.

(** ** C8: the month keys offered for selection *)

Lemma Subsequence_map_inv (A B : Type) (f : A -> B) (l : list B) (l' : list A) :
  Subsequence l (map f l') ->
  exists s, Subsequence s l' /\ l = map f s.
Proof.
  intros H. remember (map f l') as m eqn:E. revert l' E.
  induction H as [|x l m H IH|x l m H IH]; intros l' E.
  - destruct l'; try discriminate. exists []. split; [constructor | reflexivity].
  - destruct l' as [|a l']; try discriminate. inversion E; subst.
    destruct (IH l' eq_refl) as (s & Hs & ->). exists s. split; auto.
    now apply sub_skip.
  - destruct l' as [|a l']; try discriminate. inversion E; subst.
    destruct (IH l' eq_refl) as (s & Hs & ->). exists (a :: s).
    split; [now apply sub_keep | reflexivity].
Qed.

Lemma periods_increasing (rs : list row) :
  sorted_by_date rs ->
  NoDup (map (fun r => month_key (get r "Date")) rs) ->
  StronglySorted period_lt (map (fun r => to_period_M (get r "Date")) rs).
Proof.
  unfold sorted_by_date. induction 1 as [|r rs HS IH HF]; simpl; intros HN.
  - constructor.
  - inversion HN as [|x xs Hnotin HN']; subst. constructor; auto.
    rewrite Forall_map. rewrite Forall_forall in *. intros s Hs.
    specialize (HF s Hs).
    assert (Hne : month_key (get r "Date") <> month_key (get s "Date")).
    { intros Heq. apply Hnotin. rewrite Heq. apply in_map_iff. eauto. }
    destruct (get r "Date") as [|?|?|d|], (get s "Date") as [|?|?|e|];
      simpl in *; try contradiction; auto.
    apply date_leb_iff in HF.
    destruct (Nat.eq_dec (year d) (year e)) as [Ey|Ey];
      destruct (Nat.eq_dec (month d) (month e)) as [Em|Em]; try lia.
    exfalso. apply Hne. unfold month_key, to_period_M. now rewrite Ey, Em.
Qed.



(** ** C9: missing values *)

Lemma assoc_present (c : string) (l : list (string * cell)) :
  existsb (String.eqb c) (map fst l) = true -> exists v, assoc c l = Some v.
Proof.
  induction l as [|[k v] l IH]; simpl; [discriminate|].
  destruct (String.eqb c k); simpl; eauto.
Qed.

Lemma parse_table_convert (lines : list (list string)) (df0 : DataFrame)
    (r : row) (c : string) :
  parse_table lines = Ok df0 -> In r (rows df0) -> has_column df0 c = true ->
  exists numeric s, get r c = convert numeric s.
Proof.
  unfold parse_table. destruct lines as [|header data]; [discriminate|].
  destruct (existsb _ data); [discriminate|].
  intros H. inversion H; subst; clear H. unfold has_column. simpl.
  intros Hin Hc. apply in_map_iff in Hin. destruct Hin as ([i l] & <- & _).
  unfold get; simpl.
  match goal with |- context [assoc c ?cs] => destruct (@assoc_present c cs) as (v & E) end.
  - rewrite map_map.
    assert (Hfst : forall (named : list (string * nat)) (g : nat -> cell),
               map (fun x : string * nat =>
                      fst (let '(name, j) := x in (name, g j))) named
               = map fst named).
    { intros named g. apply map_ext. intros [name j]. reflexivity. }
    rewrite Hfst.
    assert (Hcomb : forall (h : list string) (a : nat),
               map fst (combine h (seq a (List.length h))) = h).
    { induction h as [|x h IH]; intros a; simpl; auto. now rewrite IH. }
    now rewrite Hcomb.
  - rewrite E. apply assoc_In in E. apply in_map_iff in E.
    destruct E as ([name j] & E & _). inversion E; subst. eauto.
Qed.




(** ** C4: the totals by city *)

Local Open Scope Q_scope.

Lemma Qsum_app (l1 l2 : list Q) : Qsum (l1 ++ l2) == Qsum l1 + Qsum l2.
Proof.
  induction l1 as [|q l1 IH]; simpl.
  - now rewrite Qplus_0_l.
  - rewrite IH. apply Qplus_assoc.
Qed.

Lemma Qsum_perm (l l' : list Q) : Permutation l l' -> Qsum l == Qsum l'.
Proof.
  induction 1; simpl.
  - reflexivity.
  - now rewrite IHPermutation.
  - rewrite !Qplus_assoc. now rewrite (Qplus_comm y x).
  - now rewrite IHPermutation1.
Qed.

Lemma sum_column_app (l1 l2 : list row) (c : string) :
  sum_column (l1 ++ l2) c == sum_column l1 c + sum_column l2 c.
Proof. unfold sum_column. rewrite map_app. apply Qsum_app. Qed.

Lemma sum_column_perm (l l' : list row) (c : string) :
  Permutation l l' -> sum_column l c == sum_column l' c.
Proof. intros H. unfold sum_column. apply Qsum_perm. now apply Permutation_map. Qed.

Lemma sum_from_numbers (l : list cell) (a : Q) :
  Forall (fun c => is_number_or_missing c = true) l ->
  exists q, sum_from (Some (Num a)) l = Ok (Num q) /\
            q == a + Qsum (map number_of l).
Proof.
  revert a. induction l as [|c l IH]; intros a HF; simpl.
  - exists a. split; auto. now rewrite Qplus_0_r.
  - inversion HF as [|? ? Hc HF']; subst.
    destruct c as [|p|s|d|]; simpl in *; try discriminate.
    + destruct (IH a HF') as (q & E & Hq). exists q. split; auto.
      now rewrite Qplus_0_l.
    + destruct (IH (Qred (a + p)) HF') as (q & E & Hq). exists q. split; auto.
      rewrite Hq, Qred_correct. symmetry. apply Qplus_assoc.
Qed.

Lemma agg_sum_numbers (l : list cell) :
  Forall (fun c => is_number_or_missing c = true) l ->
  exists q, agg_sum l = Ok (Num q) /\ q == Qsum (map number_of l).
Proof.
  unfold agg_sum. induction l as [|c l IH]; intros HF; simpl.
  - exists 0. split; reflexivity.
  - inversion HF as [|? ? Hc HF']; subst.
    destruct c as [|p|s|d|]; simpl in *; try discriminate.
    + destruct (IH HF') as (q & E & Hq). exists q. split; auto.
      now rewrite Qplus_0_l.
    + apply sum_from_numbers. exact HF'.
Qed.

Local Close Scope Q_scope.

Lemma insert_key_perm (k : list cell) (l : list (list cell)) :
  Permutation (insert_key k l) (k :: l).
Proof.
  induction l as [|k' l IH]; simpl; auto.
  destruct (key_leb k k'); auto.
  eapply Permutation_trans; [apply perm_skip, IH | apply perm_swap].
Qed.

Lemma sort_keys_perm (l : list (list cell)) : Permutation (sort_keys l) l.
Proof.
  unfold sort_keys. induction l as [|k l IH]; simpl; auto.
  eapply Permutation_trans; [apply insert_key_perm | now constructor].
Qed.

(** The groups, put side by side, are the rows that have a value in each
    key. *)
Lemma groups_partition (by_ : list string) (rs : list row) :
  Permutation (flat_map snd (groups by_ rs))
              (filter (fun r => negb (existsb isna (group_key by_ r))) rs).
Proof.
  unfold groups.
  set (keyed := filter (fun r => negb (existsb isna (group_key by_ r))) rs).
  set (ks := unique key_eqb (map (group_key by_) keyed)).
  rewrite flat_map_concat_map, map_map. simpl. rewrite <- flat_map_concat_map.
  eapply Permutation_trans.
  - apply Permutation_flat_map. apply sort_keys_perm.
  - apply (partition_by_key key_eqb_sym key_eqb_trans).
    + apply unique_distinct, key_eqb_sym.
    + intros r Hr. apply unique_covers; [apply key_eqb_refl|].
      apply in_map_iff. eauto.
Qed.

(** Every group has a member: only the keys that occur form a group. *)
Lemma groups_nonempty (by_ : list string) (rs : list row)
    (k : list cell) (members : list row) :
  In (k, members) (groups by_ rs) -> members <> [].
Proof.
  unfold groups.
  set (keyed := filter (fun r => negb (existsb isna (group_key by_ r))) rs).
  intros Hin. apply in_map_iff in Hin. destruct Hin as (k' & E & Hk).
  inversion E; subst k' members; clear E.
  apply (Permutation_in _ (sort_keys_perm _)) in Hk.
  assert (Hk' : In k (map (group_key by_) keyed))
    by (eapply Subsequence_In; [apply unique_sub | exact Hk]).
  apply in_map_iff in Hk'. destruct Hk' as (r & Hr & Hin).
  assert (Hmem : In r (filter (fun r => key_eqb (group_key by_ r) k) keyed)).
  { apply filter_In. split; auto. rewrite Hr. apply key_eqb_refl. }
  intros E. rewrite E in Hmem. destruct Hmem.
Qed.

Lemma groups_members (by_ : list string) (rs : list row)
    (k : list cell) (members : list row) (r : row) :
  In (k, members) (groups by_ rs) -> In r members -> In r rs.
Proof.
  unfold groups. intros Hin Hr. apply in_map_iff in Hin.
  destruct Hin as (k' & E & _). inversion E; subst.
  apply filter_In in Hr. destruct Hr as [Hr _].
  apply filter_In in Hr. tauto.
Qed.

Lemma aggregate_city_totals (gs : list (list cell * list row)) (i : nat) :
  (forall k members r, In (k, members) gs -> In r members ->
                       is_number_or_missing (get r "Total") = true) ->
  exists rs,
    aggregate ["City"] "Total" agg_sum i gs = Ok rs /\
    (sum_column rs "Total" == sum_column (flat_map snd gs) "Total")%Q.
Proof.
  revert i. induction gs as [|[k members] gs IH]; intros i Hnum; simpl.
  - exists []. split; reflexivity.
  - destruct (@agg_sum_numbers (map (fun r => get r "Total") members))
      as (q & Eq & Hq).
    { rewrite Forall_map. apply Forall_forall. intros r Hr.
      eapply Hnum; [left; reflexivity | exact Hr]. }
    rewrite Eq. simpl.
    destruct (IH (S i)) as (rs & Ers & Hrs).
    { intros k' m' r Hin Hr. eapply Hnum; [right; exact Hin | exact Hr]. }
    rewrite Ers. simpl. eexists. split; [reflexivity|].
    rewrite sum_column_app. unfold sum_column at 1. simpl.
    fold (sum_column rs "Total"). rewrite Hrs.
    apply Qplus_comp; [|reflexivity].
    rewrite map_map in Hq.
    destruct k; simpl; exact Hq.
Qed.




(** ** C7: the views of an empty table *)

(** C7: on a table without rows that has the columns of a sales table, each
    of the five views hands an empty table to its chart and raises nothing.
    Whatever the table, a group of the grouping has at least one row: the
    mean of the ratings is never taken over an empty group. *)
Theorem C7_views_of_an_empty_table (df : DataFrame) (w : world) :
  rows df = [] ->
  (forall c, In c sales_columns -> has_column df c = true) ->
  (exists fig, plot_revenue_by_day df w = render (PlotlyChart RevenueByDay fig) w
               /\ rows fig = []) /\
  (exists fig, plot_revenue_by_product df w = render (PlotlyChart RevenueByProduct fig) w
               /\ rows fig = []) /\
  (exists fig, plot_revenue_by_city df w = render (PlotlyChart RevenueByCity fig) w
               /\ rows fig = []) /\
  (exists fig, plot_revenue_by_payment df w = render (PlotlyChart RevenueByPayment fig) w
               /\ rows fig = []) /\
  (exists fig, plot_rating_by_city df w = render (PlotlyChart RatingByCity fig) w
               /\ rows fig = []) /\
  (forall by_ rs k members, In (k, members) (groups by_ rs) -> members <> []).
Proof.
  intros Hrows Hcols.
  assert (HD : has_column df "Date" = true) by (apply Hcols; simpl; auto).
  assert (HC : has_column df "City" = true) by (apply Hcols; simpl; auto).
  assert (HL : has_column df "Product line" = true) by (apply Hcols; simpl; auto 6).
  assert (HP : has_column df "Payment" = true) by (apply Hcols; simpl; auto 6).
  assert (HT : has_column df "Total" = true) by (apply Hcols; simpl; auto 8).
  assert (HR : has_column df "Rating" = true) by (apply Hcols; simpl; auto 8).
  repeat split.
  - exists df. split; [|exact Hrows].
    unfold plot_revenue_by_day, bind_action, lift, px. simpl.
    now rewrite HD, HT, HC.
  - eexists. split.
    + unfold plot_revenue_by_product, bind_action, lift, groupby_agg. simpl.
      rewrite HL, HC, HT, Hrows. simpl. reflexivity.
    + reflexivity.
  - eexists. split.
    + unfold plot_revenue_by_city, bind_action, lift, groupby_agg. simpl.
      rewrite HC, HT, Hrows. simpl. reflexivity.
    + reflexivity.
  - exists df. split; [|exact Hrows].
    unfold plot_revenue_by_payment, bind_action, lift, px. simpl.
    now rewrite HT, HP.
  - eexists. split.
    + unfold plot_rating_by_city, bind_action, lift, groupby_agg. simpl.
      rewrite HC, HR, Hrows. simpl. reflexivity.
    + reflexivity.
  - apply groups_nonempty.
Qed.

Lemma C7_scenario :
  rows header_only_table = [] /\
  (forall c, In c sales_columns -> has_column header_only_table c = true) /\
  (exists fig,
      plot_revenue_by_city header_only_table initial
      = render (PlotlyChart RevenueByCity fig) initial /\ rows fig = []) /\
  (exists fig,
      plot_rating_by_city header_only_table initial
      = render (PlotlyChart RatingByCity fig) initial /\ rows fig = []).
Proof.
  assert (HR : rows header_only_table = []) by reflexivity.
  assert (HC : forall c, In c sales_columns -> has_column header_only_table c = true).
  { intros c Hc. simpl in Hc.
    repeat (destruct Hc as [<- | Hc]; [reflexivity|]). destruct Hc. }
  split; [exact HR|]. split; [exact HC|].
  destruct (@C7_views_of_an_empty_table header_only_table initial HR HC)
    as (_ & _ & Hcity & _ & Hrating & _).
  split; [exact Hcity | exact Hrating].
Defined.

(** ** C5: the cache of the loader *)

(** C5: after a call of the loader with a path has returned a table, a
    second call with that path returns the same object and changes nothing:
    the body of the loader does not run again and no frame is created, even
    if the disk has changed.  A call with another path runs the body for that
    path, and what it returns is what the body gives for that path. *)
Theorem C5_loader_is_cached
    (argsort : list date -> list nat) (fs fs' : filesystem) (path : Path)
    (w w1 : world) (obj : nat) :
  load_data argsort fs path w = (Ok obj, w1) ->
  load_data argsort fs' path w1 = (Ok obj, w1) /\
  (cache w = None -> executions w1 = path :: executions w) /\
  (forall path', path' <> path ->
     exists r w2,
       load_data argsort fs' path' w1 = (r, w2) /\
       executions w2 = path' :: executions w1 /\
       match r with
       | Ok obj' =>
           exists df', load_data_wrapped argsort fs' path' = Ok df' /\
                       nth_error (heap w2) obj' = Some df' /\
                       List.length (heap w2) = S (List.length (heap w1)) /\
                       cache w2 = Some (path', obj')
       | Raise e => load_data_wrapped argsort fs' path' = Raise e /\
                    heap w2 = heap w1
       end).
Proof.
  intros H.
  assert (Hc : cache w1 = Some (path, obj)).
  { unfold load_data in H.
    destruct (cache w) as [[key o]|] eqn:Ec.
    - destruct (String.eqb key path) eqn:Ek.
      + inversion H; subst. apply String.eqb_eq in Ek. now subst.
      + destruct (load_data_wrapped argsort fs path); inversion H; subst; reflexivity.
    - destruct (load_data_wrapped argsort fs path); inversion H; subst; reflexivity. }
  split; [|split].
  - unfold load_data. rewrite Hc, String.eqb_refl. reflexivity.
  - intros Ec. unfold load_data in H. rewrite Ec in H.
    destruct (load_data_wrapped argsort fs path); inversion H; subst; reflexivity.
  - intros path' Hne. unfold load_data. rewrite Hc.
    apply String.eqb_neq in Hne. rewrite String.eqb_sym in Hne. rewrite Hne.
    destruct (load_data_wrapped argsort fs' path') as [df'|e].
    + eexists. eexists. split; [reflexivity|]. simpl. split; [reflexivity|].
      exists df'. split; [reflexivity|]. split; [|split; [|reflexivity]].
      * rewrite nth_error_app2 by lia. now rewrite Nat.sub_diag.
      * rewrite length_app. simpl. lia.
    + eexists. eexists. split; [reflexivity|]. simpl. auto.
Qed.

Lemma C5_scenario :
  load_data stable_argsort scenario "sales.csv" initial = (Ok 0, after_first_load) /\
  load_data stable_argsort header_only "sales.csv" after_first_load
  = (Ok 0, after_first_load) /\
  executions after_first_load = ["sales.csv"].
Proof.
  assert (L : load_data stable_argsort scenario "sales.csv" initial
              = (Ok 0, after_first_load)) by (vm_compute; reflexivity).
  split; [exact L|].
  destruct (@C5_loader_is_cached stable_argsort scenario header_only "sales.csv"
              initial after_first_load 0 L) as (Hhit & Hrun & _).
  split; [exact Hhit | exact (Hrun eq_refl)].
Defined.

(** ** C6: failures of the loader *)

Lemma to_datetime1_malformed (c : cell) :
  is_datetime c = false ->
  (is_ok (to_datetime1 c) = false <-> malformed_date c).
Proof.
  destruct c as [|q|s|d|]; simpl; intros H; try discriminate.
  - split; [discriminate | tauto].
  - tauto.
  - destruct (strptime s); simpl; tauto.
Qed.

Lemma load_data_wrapped_raises (argsort : list date -> list nat)
    (fs : filesystem) (path : Path) (df0 : DataFrame) :
  read_csv fs path = Ok df0 ->
  (is_ok (load_data_wrapped argsort fs path) = false <->
   has_column df0 "Date" = false \/
   exists r, In r (rows df0) /\ malformed_date (get r "Date")).
Proof.
  intros E0.
  assert (Hcell : forall r, In r (rows df0) ->
             (is_ok (to_datetime1 (get r "Date")) = false
              <-> malformed_date (get r "Date"))).
  { intros r Hr. apply to_datetime1_malformed.
    exact (@read_csv_cells fs path df0 r "Date" E0 Hr). }
  unfold load_data_wrapped. rewrite E0. simpl. unfold getitem at 1.
  destruct (has_column df0 "Date") eqn:EC; simpl; [|tauto].
  destruct (to_datetime _) as [ts|e] eqn:ET; simpl.
  - unfold sort_values, getitem. rewrite has_column_setitem. simpl.
    unfold has_column at 1. simpl columns. rewrite EC.
    unfold has_column in EC. rewrite EC. simpl.
    split; [discriminate|]. intros [H | (r & Hr & Hm)]; [discriminate|].
    apply Hcell in Hm; [|exact Hr].
    assert (Hf : is_ok (to_datetime (map (fun r => get r "Date") (rows df0))) = false).
    { apply to_datetime_raises. exists (get r "Date"). split; auto.
      apply in_map_iff. eauto. }
    rewrite ET in Hf. discriminate.
  - split; auto. intros _. right.
    assert (Hf : is_ok (to_datetime (map (fun r => get r "Date") (rows df0))) = false)
      by now rewrite ET.
    apply to_datetime_raises in Hf. destruct Hf as (c & Hc & Hf).
    apply in_map_iff in Hc. destruct Hc as (r & <- & Hr).
    exists r. split; auto. now apply Hcell.
Qed.



(** The scenario of the specification: one date of the file is
    "13/40/2019"; the loader raises and [main] stops after the title. *)
Example malformed_date_scenario (selectbox : list cell -> option cell) :
  strptime "13/40/2019" = Raise ValueError /\
  load_data_wrapped stable_argsort bad_date (DATA_PATH "/app") = Raise ValueError /\
  main stable_argsort selectbox bad_date "/app" initial
  = (Raise ValueError,
     mkWorld None [] ["/app/data/supermarket_sales.csv"] [Title]).
Proof.
  split; [reflexivity|]. split; [vm_compute; reflexivity|].
  unfold main, bind_action, render, load_data. simpl.
  replace (load_data_wrapped stable_argsort bad_date (DATA_PATH "/app"))
    with (@Raise DataFrame ValueError) by (vm_compute; reflexivity).
  reflexivity.
Qed.

(** ** C1: semicolons and decimal commas *)

Lemma chars_append (a b : string) :
  list_ascii_of_string (a ++ b)
  = (list_ascii_of_string a ++ list_ascii_of_string b)%list.
Proof. induction a as [|c a IH]; simpl; auto. now rewrite IH. Qed.

Lemma split_at_sep (is_sep : ascii -> bool) (l : list ascii) (c : ascii)
    (rest : list ascii) :
  forallb (fun x => negb (is_sep x)) l = true -> is_sep c = true ->
  split is_sep (l ++ c :: rest) = l :: split is_sep rest.
Proof.
  intros Hl Hc. induction l as [|a l IH]; simpl in *.
  - now rewrite Hc.
  - apply andb_true_iff in Hl. destruct Hl as [Ha Hl].
    apply negb_true_iff in Ha. rewrite Ha, (IH Hl). reflexivity.
Qed.

Lemma split_no_sep (is_sep : ascii -> bool) (l : list ascii) :
  forallb (fun x => negb (is_sep x)) l = true -> split is_sep l = [l].
Proof.
  induction l as [|a l IH]; simpl; auto. intros Hl.
  apply andb_true_iff in Hl. destruct Hl as [Ha Hl].
  apply negb_true_iff in Ha. rewrite Ha, (IH Hl). reflexivity.
Qed.

Lemma plain_no_delimiter (s : string) :
  plain s = true ->
  forallb (fun x => negb (is_delimiter x)) (list_ascii_of_string s) = true.
Proof.
  unfold plain. intros H. rewrite forallb_forall in *. intros c Hc.
  specialize (H c Hc). unfold plain_char in H.
  apply negb_true_iff in H. apply orb_false_iff in H. destruct H as [H _].
  apply orb_false_iff in H. destruct H as [H _]. now rewrite H.
Qed.

Lemma plain_no_terminator (s : string) :
  plain s = true ->
  forallb (fun x => negb (is_terminator x)) (list_ascii_of_string s) = true.
Proof.
  unfold plain. intros H. rewrite forallb_forall in *. intros c Hc.
  specialize (H c Hc). unfold plain_char in H.
  apply negb_true_iff in H. apply orb_false_iff in H. destruct H as [H _].
  apply orb_false_iff in H. destruct H as [_ H]. now rewrite H.
Qed.

(** A line of plain fields is cut back into its fields. *)
Lemma split_line_of (fields : list string) :
  fields <> [] -> forallb plain fields = true ->
  map string_of_list_ascii
      (split is_delimiter (list_ascii_of_string (line_of fields)))
  = fields.
Proof.
  unfold line_of. induction fields as [|f fields IH]; [congruence|].
  intros _ Hp. simpl in Hp. apply andb_true_iff in Hp. destruct Hp as [Hf Hp].
  destruct fields as [|g fields].
  - simpl. rewrite split_no_sep by now apply plain_no_delimiter.
    simpl. now rewrite string_of_list_ascii_of_string.
  - change (String.concat ";" (f :: g :: fields))
      with (f ++ ";" ++ String.concat ";" (g :: fields))%string.
    rewrite chars_append. simpl list_ascii_of_string.
    rewrite split_at_sep; [|now apply plain_no_delimiter | reflexivity].
    simpl map. rewrite string_of_list_ascii_of_string. f_equal.
    apply IH; [discriminate | exact Hp].
Qed.

Lemma line_of_no_terminator (fields : list string) :
  forallb plain fields = true ->
  forallb (fun x => negb (is_terminator x))
          (list_ascii_of_string (line_of fields)) = true.
Proof.
  unfold line_of. induction fields as [|f fields IH]; intros Hp; [reflexivity|].
  simpl in Hp. apply andb_true_iff in Hp. destruct Hp as [Hf Hp].
  destruct fields as [|g fields].
  - simpl. now apply plain_no_terminator.
  - change (String.concat ";" (f :: g :: fields))
      with (f ++ ";" ++ String.concat ";" (g :: fields))%string.
    rewrite chars_append, forallb_app. simpl list_ascii_of_string.
    rewrite plain_no_terminator by exact Hf. simpl.
    apply IH. exact Hp.
Qed.

Lemma tokenize_text_of (table : list (list string)) :
  well_formed table -> tokenize (text_of table) = table.
Proof.
  unfold tokenize, text_of. induction 1 as [|fields table [Hp Hb] HF IH].
  - reflexivity.
  - cbn [map].
    assert (E : forall rest,
               (String.concat ""
                  ((line_of fields ++ String LF "")%string :: rest))
               = (line_of fields ++ String LF (String.concat "" rest))%string).
    { intros [|r rest]; simpl.
      - clear. induction (line_of fields); simpl; congruence.
      - clear. induction (line_of fields); simpl; congruence. }
    rewrite E, chars_append. simpl list_ascii_of_string.
    rewrite split_at_sep; [|now apply line_of_no_terminator | reflexivity].
    simpl filter. unfold blank_line in Hb. rewrite Hb. simpl.
    f_equal.
    + apply split_line_of; auto.
      intros ->. discriminate.
    + exact IH.
Qed.

Lemma chars_length (s : string) :
  List.length (list_ascii_of_string s) = String.length s.
Proof. induction s; simpl; congruence. Qed.

Lemma is_digit_not_space (c : ascii) : is_digit c = true -> is_space c = false.
Proof.
  unfold is_digit, is_space. intros H. apply andb_true_iff in H.
  destruct H as [H1 H2]. apply Nat.leb_le in H1, H2.
  apply orb_false_iff. split.
  - apply Nat.eqb_neq. lia.
  - apply andb_false_iff. right. apply Nat.leb_gt. lia.
Qed.

Lemma read_sign_digit (c : ascii) (s : list ascii) :
  is_digit c = true -> read_sign (c :: s) = (false, c :: s).
Proof.
  intros H.
  destruct c as [[] [] [] [] [] [] [] []];
    try (vm_compute in H; discriminate H); reflexivity.
Qed.

Lemma read_digits_app (ds rest : list ascii) (acc : N) (n : nat) :
  forallb is_digit ds = true ->
  match rest with [] => true | c :: _ => negb (is_digit c) end = true ->
  read_digits acc n (ds ++ rest)
  = (fold_left (fun a c => (10 * a + N.of_nat (digit_val c))%N) ds acc,
     n + List.length ds, rest).
Proof.
  revert acc n. induction ds as [|d ds IH]; intros acc n Hd Hr.
  - simpl. rewrite Nat.add_0_r. destruct rest as [|c rest]; auto.
    simpl. apply negb_true_iff in Hr. now rewrite Hr.
  - simpl in Hd. apply andb_true_iff in Hd. destruct Hd as [Hd Hds].
    cbn [app read_digits fold_left List.length]. rewrite Hd.
    rewrite IH by assumption. f_equal. f_equal. lia.
Qed.

Lemma pos_pow_1_l (p : positive) : (1 ^ p)%positive = 1%positive.
Proof.
  apply Pos2Z.inj. rewrite Pos2Z.inj_pow. apply Z.pow_1_l. apply Pos2Z.is_nonneg.
Qed.

Lemma scale_value (m : N) (e : Z) :
  (scale false m e == inject_Z (Z.of_N m) * (10 # 1) ^ e)%Q.
Proof.
  unfold scale. destruct e as [|p|p]; rewrite Qred_correct.
  - simpl. rewrite Z.mul_1_r. now rewrite Qmult_1_r.
  - change (Qmake (Z.of_N m * 10 ^ Z.pos p) 1)
      with (inject_Z (Z.of_N m * 10 ^ Z.pos p)).
    rewrite inject_Z_mult. apply Qmult_comp; [reflexivity|].
    rewrite Zpower_Qpower by (apply Pos2Z.is_nonneg). reflexivity.
  - rewrite Qmake_Qdiv. unfold Qdiv. apply Qmult_comp; [reflexivity|].
    simpl Qpower. rewrite Qpower_decomp_positive.
    rewrite pos_pow_1_l, Pos2Z.inj_pow. reflexivity.
Qed.

Lemma parse_decimal_comma (i f : string) :
  digits i = true -> digits f = true -> i <> "" ->
  parse_number (i ++ "," ++ f)
  = Some (scale false (digits_value (i ++ f)) (- Z.of_nat (String.length f))).
Proof.
  unfold digits, digits_value, parse_number. intros Hi Hf Hne.
  rewrite !chars_append. simpl (list_ascii_of_string ",").
  destruct (list_ascii_of_string i) as [|c ci] eqn:Ei.
  { destruct i; [congruence | discriminate]. }
  assert (Hc : is_digit c = true) by (simpl in Hi; now apply andb_true_iff in Hi).
  cbn [app skip_spaces]. rewrite (is_digit_not_space _ Hc).
  rewrite read_sign_digit by exact Hc.
  change (c :: (ci ++ (","%char :: list_ascii_of_string f)%list)%list)
    with ((c :: ci) ++ ","%char :: list_ascii_of_string f)%list.
  rewrite read_digits_app; [|exact Hi | reflexivity].
  cbv beta iota zeta.
  rewrite <- (app_nil_r (list_ascii_of_string f)) at 1.
  rewrite read_digits_app; [|exact Hf | reflexivity].
  cbv beta iota zeta. cbn [List.length Nat.add Nat.eqb skip_spaces].
  rewrite chars_length. f_equal. f_equal.
  change (c :: (ci ++ list_ascii_of_string f)%list)
    with ((c :: ci) ++ list_ascii_of_string f)%list.
  now rewrite fold_left_app.
Qed.

Lemma digit_start_not_na (c c2 : ascii) (r : string) :
  is_digit c = true -> c2 <> "."%char ->
  is_na_value (String c (String c2 r)) = false.
Proof.
  intros H H2. apply Ascii.eqb_neq in H2.
  unfold is_na_value, STR_NA_VALUES.
  destruct c as [[] [] [] [] [] [] [] []];
    try (vm_compute in H; discriminate H);
    cbn [existsb String.eqb]; rewrite ?H2; reflexivity.
Qed.

Lemma digits_not_na (i f : string) :
  digits i = true -> digits f = true -> i <> "" ->
  is_na_value (i ++ "," ++ f) = false.
Proof.
  unfold digits. intros Hi Hf Hne.
  destruct i as [|c i]; [congruence|]. simpl in Hi.
  apply andb_true_iff in Hi. destruct Hi as [Hc Hi].
  destruct i as [|c2 i]; simpl.
  - apply digit_start_not_na; [exact Hc | discriminate].
  - apply digit_start_not_na; [exact Hc|].
    simpl in Hi. apply andb_true_iff in Hi. destruct Hi as [Hc2 _].
    intros ->. discriminate Hc2.
Qed.




(** * Further properties of the program *)

(** ** The cache between calls *)

Lemma load_data_inv (argsort : list date -> list nat) (fs : filesystem)
    (path : Path) (w w1 : world) (r : result nat) :
  load_data argsort fs path w = (r, w1) ->
  page w1 = page w /\
  ((exists obj, cache w = Some (path, obj) /\ r = Ok obj /\ w1 = w) \/
   ((forall obj, cache w <> Some (path, obj)) /\
    executions w1 = path :: executions w /\
    match r with
    | Ok obj =>
        exists df, load_data_wrapped argsort fs path = Ok df /\
                   obj = List.length (heap w) /\
                   heap w1 = (heap w ++ [df])%list /\
                   cache w1 = Some (path, obj)
    | Raise e =>
        load_data_wrapped argsort fs path = Raise e /\
        heap w1 = heap w /\ cache w1 = cache w
    end)).
Proof.
  unfold load_data. intros H.
  destruct (cache w) as [[key o]|] eqn:Ec.
  - destruct (String.eqb key path) eqn:Ek.
    + apply String.eqb_eq in Ek. subst key. inversion H; subst.
      split; auto. left. eauto.
    + assert (Hno : forall obj, Some (key, o) <> Some (path, obj)).
      { intros obj Heq. inversion Heq; subst.
        rewrite String.eqb_refl in Ek. discriminate. }
      destruct (load_data_wrapped argsort fs path) as [df|e];
        inversion H; subst; simpl; split; auto; right;
        (split; [exact Hno|]); split; auto.
      exists df. auto.
  - destruct (load_data_wrapped argsort fs path) as [df|e];
      inversion H; subst; simpl; split; auto; right;
      (split; [discriminate|]); split; auto.
    exists df. auto.
Qed.

Lemma load_data_ok_cached (argsort : list date -> list nat) (fs : filesystem)
    (path : Path) (w w1 : world) (obj : nat) :
  load_data argsort fs path w = (Ok obj, w1) -> cache w1 = Some (path, obj).
Proof.
  intros H. apply load_data_inv in H.
  destruct H as (_ & [(o & Hc & Ho & ->) | (_ & _ & df & _ & _ & _ & Hc)]); auto.
  inversion Ho; subst. exact Hc.
Qed.

Lemma load_data_hit (argsort : list date -> list nat) (fs : filesystem)
    (path : Path) (w : world) (obj : nat) :
  cache w = Some (path, obj) -> load_data argsort fs path w = (Ok obj, w).
Proof.
  intros H. unfold load_data. now rewrite H, String.eqb_refl.
Qed.

(** X1: the cache holds one entry.  After the loader has returned the table
    of one path and then the table of another path, a call with the first
    path runs the body of the loader again. *)
Theorem lru_cache_holds_one_entry
    (argsort : list date -> list nat) (fs fs' fs'' : filesystem)
    (path path' : Path) (w w1 w2 : world) (obj obj' : nat) :
  path' <> path ->
  load_data argsort fs path w = (Ok obj, w1) ->
  load_data argsort fs' path' w1 = (Ok obj', w2) ->
  exists r w3,
    load_data argsort fs'' path w2 = (r, w3) /\
    executions w3 = path :: executions w2 /\
    match r with
    | Ok obj'' => exists df, load_data_wrapped argsort fs'' path = Ok df /\
                             nth_error (heap w3) obj'' = Some df
    | Raise e => load_data_wrapped argsort fs'' path = Raise e
    end.
Proof.
  intros Hne _ H2. apply load_data_ok_cached in H2.
  destruct (load_data argsort fs'' path w2) as [r w3] eqn:H3.
  exists r, w3. split; [reflexivity|].
  apply load_data_inv in H3.
  destruct H3 as (_ & [(o & Hc & _) | (_ & Hex & Hr)]).
  - rewrite H2 in Hc. inversion Hc. contradiction.
  - split; [exact Hex|]. destruct r as [obj''|e].
    + destruct Hr as (df & Hl & -> & Hh & _). exists df. split; auto.
      rewrite Hh, nth_error_app2 by lia. now rewrite Nat.sub_diag.
    + tauto.
Qed.

Lemma lru_cache_holds_one_entry_scenario :
  "other.csv" <> "sales.csv" /\
  load_data stable_argsort scenario "sales.csv" initial = (Ok 0, after_first_load) /\
  (exists w2,
     load_data stable_argsort (disk "other.csv" ["Date"; "01/05/2019"])
       "other.csv" after_first_load = (Ok 1, w2) /\
     exists r w3,
       load_data stable_argsort scenario "sales.csv" w2 = (r, w3) /\
       executions w3 = "sales.csv" :: executions w2).
Proof.
  assert (N : "other.csv" <> "sales.csv") by discriminate.
  assert (L1 : load_data stable_argsort scenario "sales.csv" initial
               = (Ok 0, after_first_load)) by (vm_compute; reflexivity).
  split; [exact N|]. split; [exact L1|].
  destruct (load_data stable_argsort (disk "other.csv" ["Date"; "01/05/2019"])
              "other.csv" after_first_load) as [r2 w2] eqn:L2.
  assert (R2 : r2 = Ok 1) by (vm_compute in L2; congruence).
  subst r2. exists w2. split; [reflexivity|].
  destruct (@lru_cache_holds_one_entry stable_argsort scenario
              (disk "other.csv" ["Date"; "01/05/2019"]) scenario
              "sales.csv" "other.csv" initial after_first_load w2 0 1 N L1 L2)
    as (r & w3 & H3 & Hex & _).
  exists r, w3. split; [exact H3 | exact Hex].
Defined.

(** X2: a call of the loader that raises leaves the cache as it was: the
    table cached before is still returned without running the body. *)
Theorem failed_load_keeps_the_cache
    (argsort : list date -> list nat) (fs fs' fs'' : filesystem)
    (path path' : Path) (w w1 w2 : world) (obj : nat) (e : exception) :
  load_data argsort fs path w = (Ok obj, w1) ->
  load_data argsort fs' path' w1 = (Raise e, w2) ->
  cache w2 = cache w1 /\ heap w2 = heap w1 /\
  load_data argsort fs'' path w2 = (Ok obj, w2).
Proof.
  intros H1 H2. apply load_data_ok_cached in H1.
  apply load_data_inv in H2.
  destruct H2 as (_ & [(o & _ & Ho & _) | (_ & _ & _ & Hh & Hc)]);
    [discriminate|].
  split; [exact Hc|]. split; [exact Hh|].
  apply load_data_hit. now rewrite Hc.
Qed.

Lemma failed_load_keeps_the_cache_scenario :
  load_data stable_argsort scenario "sales.csv" initial = (Ok 0, after_first_load) /\
  exists w2,
    load_data stable_argsort empty_disk "other.csv" after_first_load
    = (Raise FileNotFoundError, w2) /\
    cache w2 = cache after_first_load /\
    load_data stable_argsort empty_disk "sales.csv" w2 = (Ok 0, w2).
Proof.
  assert (L1 : load_data stable_argsort scenario "sales.csv" initial
               = (Ok 0, after_first_load)) by (vm_compute; reflexivity).
  split; [exact L1|].
  destruct (load_data stable_argsort empty_disk "other.csv" after_first_load)
    as [r2 w2] eqn:L2.
  assert (R2 : r2 = Raise FileNotFoundError) by (vm_compute in L2; congruence).
  subst r2. exists w2. split; [reflexivity|].
  destruct (@failed_load_keeps_the_cache stable_argsort scenario empty_disk
              empty_disk "sales.csv" "other.csv" initial after_first_load w2 0
              FileNotFoundError L1 L2) as (Hc & _ & Hhit).
  split; [exact Hc | exact Hhit].
Defined.

(** ** [main] *)

Lemma add_page_nil (w : world) : add_page [] w = w.
Proof. destruct w. unfold add_page. simpl. now rewrite app_nil_r. Qed.

Lemma add_page_app (ws ws' : list widget) (w : world) :
  add_page ws' (add_page ws w) = add_page (ws ++ ws') w.
Proof. unfold add_page. simpl. now rewrite app_assoc. Qed.

Lemma draws_render (x : widget) : draws (render x) (Ok tt) [x].
Proof. intros w. reflexivity. Qed.

Lemma draws_lift (A : Type) (r : result A) : draws (lift r) r [].
Proof. intros w. unfold lift. now rewrite add_page_nil. Qed.

Lemma draws_bind (A B : Type) (m : action A) (k : A -> action B)
    (a : A) (ws ws' : list widget) (r : result B) :
  draws m (Ok a) ws -> draws (k a) r ws' ->
  draws (bind_action m k) r (ws ++ ws').
Proof.
  intros Hm Hk w. unfold bind_action. rewrite Hm, Hk. now rewrite add_page_app.
Qed.

Lemma draws_raise (A B : Type) (m : action A) (k : A -> action B)
    (e : exception) (ws : list widget) :
  draws m (Raise e) ws -> draws (bind_action m k) (Raise e) ws.
Proof. intros Hm w. unfold bind_action. now rewrite Hm. Qed.

(** Every action made of [render] and [lift] only draws. *)
Lemma draws_some (A B : Type) (m : action A) (k : A -> action B) :
  (exists r ws, draws m r ws) ->
  (forall a, exists r ws, draws (k a) r ws) ->
  exists r ws, draws (bind_action m k) r ws.
Proof.
  intros (r & ws & Hm) Hk. destruct r as [a|e].
  - destruct (Hk a) as (r' & ws' & Hk'). exists r', (ws ++ ws')%list.
    eapply draws_bind; eauto.
  - exists (Raise e), ws. now apply draws_raise.
Qed.

Lemma dashboard_draws (selectbox : list cell -> option cell) (df : DataFrame) :
  exists r ws, draws (dashboard selectbox df) r ws.
Proof.
  unfold dashboard, sidebar_filters, plot_revenue_by_day, plot_revenue_by_product,
    plot_revenue_by_city, plot_revenue_by_payment, plot_rating_by_city.
  repeat first
    [ apply draws_some; [|intros ?]
    | (eexists; eexists; apply draws_render)
    | (eexists; eexists; apply draws_lift) ].
Qed.

Lemma main_unfold (argsort : list date -> list nat)
    (selectbox : list cell -> option cell) (fs : filesystem) (here : Path)
    (w : world) :
  main argsort selectbox fs here w
  = match load_data argsort fs (DATA_PATH here) (add_page [Title] w) with
    | (Ok obj, w') => dashboard selectbox (nth obj (heap w') empty_frame) w'
    | (Raise e, w') => (Raise e, w')
    end.
Proof.
  unfold main, dashboard. unfold bind_action at 1. unfold render at 1.
  change (mkWorld (cache w) (heap w) (executions w) (page w ++ [Title])%list)
    with (add_page [Title] w).
  unfold bind_action at 1.
  destruct (load_data argsort fs (DATA_PATH here) (add_page [Title] w))
    as [[obj|e] w']; reflexivity.
Qed.



Lemma first_missing_none (df : DataFrame) (cs : list string) :
  Forall (fun c => has_column df c = true) cs -> first_missing df cs = None.
Proof. induction 1 as [|c cs Hc _ IH]; simpl; auto. now rewrite Hc. Qed.

Lemma numbers_ok (l : list cell) :
  Forall (fun c => is_number_or_missing c = true) l -> exists qs, numbers l = Ok qs.
Proof.
  induction 1 as [|c l Hc _ (qs & IH)]; simpl; eauto.
  destruct c; simpl in *; try discriminate; eauto.
  rewrite IH. simpl. eauto.
Qed.

Lemma agg_mean_ok (l : list cell) :
  Forall (fun c => is_number_or_missing c = true) l -> exists v, agg_mean l = Ok v.
Proof.
  intros H. unfold agg_mean. destruct (numbers_ok H) as (qs & ->). simpl.
  destruct qs; eauto.
Qed.

Lemma agg_sum_ok (l : list cell) :
  Forall (fun c => is_number_or_missing c = true) l -> exists v, agg_sum l = Ok v.
Proof. intros H. destruct (agg_sum_numbers H) as (q & E & _). eauto. Qed.

Lemma aggregate_ok (by_ : list string) (column : string)
    (agg : list cell -> result cell) (gs : list (list cell * list row)) (i : nat) :
  (forall k members, In (k, members) gs ->
     exists v, agg (map (fun r => get r column) members) = Ok v) ->
  exists rs, aggregate by_ column agg i gs = Ok rs.
Proof.
  revert i. induction gs as [|[k members] gs IH]; intros i H; simpl; eauto.
  destruct (H k members (or_introl eq_refl)) as (v & ->). simpl.
  destruct (IH (S i)) as (rs & ->);
    [intros k' m' Hin; apply (H k' m'); right; exact Hin|].
  simpl. eauto.
Qed.

(** The grouping returns a table when the columns are there and every value
    to reduce is a number or missing. *)
Lemma groupby_agg_ok (df : DataFrame) (by_ : list string) (column : string)
    (agg : list cell -> result cell) :
  Forall (fun c => has_column df c = true) (by_ ++ [column]) ->
  Forall (fun r => is_number_or_missing (get r column) = true) (rows df) ->
  (forall l, Forall (fun c => is_number_or_missing c = true) l ->
             exists v, agg l = Ok v) ->
  exists rs, groupby_agg df by_ column agg = Ok (mkFrame (by_ ++ [column]) rs).
Proof.
  intros Hcols Hnum Hagg. unfold groupby_agg.
  rewrite (first_missing_none _ Hcols).
  destruct (@aggregate_ok by_ column agg (groups by_ (rows df)) 0) as (rs & ->).
  - intros k members Hin. apply Hagg. rewrite Forall_map.
    apply Forall_forall. intros r Hr. rewrite Forall_forall in Hnum.
    apply Hnum. eapply groups_members; eauto.
  - simpl. eauto.
Qed.

Lemma px_ok (df : DataFrame) (names : list string) :
  Forall (fun c => has_column df c = true) names -> px df names = Ok df.
Proof. intros H. unfold px. now rewrite (first_missing_none _ H). Qed.

Lemma sidebar_filters_draws (selectbox : list cell -> option cell) (df : DataFrame) :
  has_column df "Month" = true ->
  let options := unique cell_eqb (map (fun r => get r "Month") (rows df)) in
  draws (sidebar_filters selectbox df)
        (month_filter df (selectbox options))
        [SidebarHeader; Selectbox options].
Proof.
  intros HM options w. unfold sidebar_filters, bind_action, render, lift, getitem.
  simpl. rewrite HM. simpl. unfold add_page. now rewrite <- app_assoc.
Qed.

(** X4: when the cache is empty and the loader returns a table that has the
    columns of a sales table, with numbers (or missing values) as totals and
    ratings, [main] succeeds and draws, in this order: the title, the sidebar
    header, the month selector with the distinct months, the two rows of
    columns, the five charts and the caption.  The charts by day and by
    payment get the filtered table itself, the three others its groupings;
    the loaded table becomes the one entry of the cache. *)
Theorem main_draws_the_dashboard
    (argsort : list date -> list nat) (selectbox : list cell -> option cell)
    (fs : filesystem) (here : Path) (w : world) (df : DataFrame) :
  cache w = None ->
  load_data_wrapped argsort fs (DATA_PATH here) = Ok df ->
  Forall (fun c => has_column df c = true) sales_columns ->
  Forall (fun r => is_number_or_missing (get r "Total") = true /\
                   is_number_or_missing (get r "Rating") = true) (rows df) ->
  exists options filtered by_product by_city rating w',
    main argsort selectbox fs here w = (Ok tt, w') /\
    options = unique cell_eqb (map (fun r => get r "Month") (rows df)) /\
    month_filter df (selectbox options) = Ok filtered /\
    groupby_agg filtered ["Product line"; "City"] "Total" agg_sum = Ok by_product /\
    groupby_agg filtered ["City"] "Total" agg_sum = Ok by_city /\
    groupby_agg filtered ["City"] "Rating" agg_mean = Ok rating /\
    page w' = (page w ++
               [ Title; SidebarHeader; Selectbox options; Columns 2; Columns 3;
                 PlotlyChart RevenueByDay filtered;
                 PlotlyChart RevenueByProduct by_product;
                 PlotlyChart RevenueByCity by_city;
                 PlotlyChart RevenueByPayment filtered;
                 PlotlyChart RatingByCity rating;
                 Caption ])%list /\
    heap w' = (heap w ++ [df])%list /\
    cache w' = Some (DATA_PATH here, List.length (heap w)) /\
    executions w' = DATA_PATH here :: executions w.
Proof.
  intros Hc Hl Hcols Hnum.
  destruct (@load_data_wrapped_inv argsort fs (DATA_PATH here) df Hl)
    as (_ & _ & _ & _ & _ & HM & _).
  set (options := unique cell_eqb (map (fun r => get r "Month") (rows df))).
  set (filtered := mkFrame (columns df)
                     (filter (fun r => eq_scalar (selectbox options) (get r "Month"))
                             (rows df))).
  assert (Hf : month_filter df (selectbox options) = Ok filtered)
    by (apply month_filter_rows, HM).
  assert (Hfc : forall c, has_column filtered c = has_column df c) by reflexivity.
  assert (Hcol : forall c, In c sales_columns -> has_column filtered c = true).
  { intros c Hin. rewrite Hfc. rewrite Forall_forall in Hcols. now apply Hcols. }
  assert (HfT : Forall (fun r => is_number_or_missing (get r "Total") = true)
                       (rows filtered)).
  { apply Forall_forall. intros r Hr. simpl in Hr. apply filter_In in Hr.
    rewrite Forall_forall in Hnum. now apply Hnum. }
  assert (HfR : Forall (fun r => is_number_or_missing (get r "Rating") = true)
                       (rows filtered)).
  { apply Forall_forall. intros r Hr. simpl in Hr. apply filter_In in Hr.
    rewrite Forall_forall in Hnum. now apply Hnum. }
  destruct (@groupby_agg_ok filtered ["Product line"; "City"] "Total" agg_sum)
    as (rs1 & G1); [|exact HfT|exact agg_sum_ok|].
  { repeat constructor; apply Hcol; simpl; auto 8. }
  destruct (@groupby_agg_ok filtered ["City"] "Total" agg_sum)
    as (rs2 & G2); [|exact HfT|exact agg_sum_ok|].
  { repeat constructor; apply Hcol; simpl; auto 8. }
  destruct (@groupby_agg_ok filtered ["City"] "Rating" agg_mean)
    as (rs3 & G3); [|exact HfR|exact agg_mean_ok|].
  { repeat constructor; apply Hcol; simpl; auto 8. }
  simpl app in G1, G2, G3.
  assert (D : draws (dashboard selectbox df) (Ok tt)
                ([SidebarHeader; Selectbox options] ++ [Columns 2] ++ [Columns 3]
                 ++ ([] ++ [PlotlyChart RevenueByDay filtered])
                 ++ ([] ++ [] ++ [PlotlyChart RevenueByProduct
                              (mkFrame ["Product line"; "City"; "Total"] rs1)])
                 ++ ([] ++ [] ++ [PlotlyChart RevenueByCity
                              (mkFrame ["City"; "Total"] rs2)])
                 ++ ([] ++ [PlotlyChart RevenueByPayment filtered])
                 ++ ([] ++ [] ++ [PlotlyChart RatingByCity
                              (mkFrame ["City"; "Rating"] rs3)])
                 ++ [Caption])%list).
  { unfold dashboard.
    eapply draws_bind.
    { rewrite <- Hf. apply sidebar_filters_draws, HM. }
    eapply draws_bind; [apply draws_render|].
    eapply draws_bind; [apply draws_render|].
    eapply draws_bind.
    { unfold plot_revenue_by_day. eapply draws_bind; [|apply draws_render].
      rewrite px_ok; [apply draws_lift|].
      repeat constructor; apply Hcol; simpl; auto 8. }
    eapply draws_bind.
    { unfold plot_revenue_by_product. rewrite G1.
      eapply draws_bind; [apply draws_lift|].
      eapply draws_bind; [|apply draws_render].
      rewrite px_ok; [apply draws_lift | repeat constructor]. }
    eapply draws_bind.
    { unfold plot_revenue_by_city. rewrite G2.
      eapply draws_bind; [apply draws_lift|].
      eapply draws_bind; [|apply draws_render].
      rewrite px_ok; [apply draws_lift | repeat constructor]. }
    eapply draws_bind.
    { unfold plot_revenue_by_payment. eapply draws_bind; [|apply draws_render].
      rewrite px_ok; [apply draws_lift|].
      repeat constructor; apply Hcol; simpl; auto 8. }
    eapply draws_bind.
    { unfold plot_rating_by_city. rewrite G3.
      eapply draws_bind; [apply draws_lift|].
      eapply draws_bind; [|apply draws_render].
      rewrite px_ok; [apply draws_lift | repeat constructor]. }
    apply draws_render. }
  exists options, filtered, (mkFrame ["Product line"; "City"; "Total"] rs1),
    (mkFrame ["City"; "Total"] rs2), (mkFrame ["City"; "Rating"] rs3).
  eexists. split.
  - rewrite main_unfold. unfold load_data. simpl cache. rewrite Hc, Hl.
    simpl heap. rewrite nth_middle. apply D.
  - repeat split; auto. simpl. now rewrite <- app_assoc.
Qed.

Lemma main_draws_the_dashboard_scenario :
  cache initial = None /\
  load_data_wrapped stable_argsort app_scenario (DATA_PATH "/app") = Ok scenario_table /\
  Forall (fun c => has_column scenario_table c = true) sales_columns /\
  Forall (fun r => is_number_or_missing (get r "Total") = true /\
                   is_number_or_missing (get r "Rating") = true)
         (rows scenario_table) /\
  exists w',
    main stable_argsort first_option app_scenario "/app" initial = (Ok tt, w') /\
    heap w' = [scenario_table] /\
    executions w' = ["/app/data/supermarket_sales.csv"].
Proof.
  assert (C : cache initial = None) by reflexivity.
  assert (L : load_data_wrapped stable_argsort app_scenario (DATA_PATH "/app")
              = Ok scenario_table) by (vm_compute; reflexivity).
  assert (HC : Forall (fun c => has_column scenario_table c = true) sales_columns)
    by (repeat constructor).
  assert (HN : Forall (fun r => is_number_or_missing (get r "Total") = true /\
                                is_number_or_missing (get r "Rating") = true)
                      (rows scenario_table))
    by (repeat constructor).
  split; [exact C|]. split; [exact L|]. split; [exact HC|]. split; [exact HN|].
  destruct (@main_draws_the_dashboard stable_argsort first_option app_scenario
              "/app" initial scenario_table C L HC HN)
    as (options & filtered & p & c & r & w' & HM & _ & _ & _ & _ & _ & _ & Hh & _ & Hex).
  exists w'. split; [exact HM|]. split; [exact Hh | exact Hex].
Defined.

(** ** The groupings of the charts *)

Lemma assoc_combine_other (by_ : list string) (k : list cell) (column : string)
    (v : cell) :
  ~ In column by_ ->
  assoc column (combine by_ k ++ [(column, v)]) = Some v.
Proof.
  revert k. induction by_ as [|b by_ IH]; intros k Hn; simpl.
  - now rewrite String.eqb_refl.
  - destruct k as [|c k]; simpl.
    + now rewrite String.eqb_refl.
    + destruct (String.eqb column b) eqn:E.
      * apply String.eqb_eq in E. subst. simpl in Hn. tauto.
      * apply IH. simpl in Hn. tauto.
Qed.

Lemma aggregate_totals (by_ : list string) (column : string)
    (gs : list (list cell * list row)) (i : nat) (rs : list row) :
  ~ In column by_ ->
  (forall k members r, In (k, members) gs -> In r members ->
                       is_number_or_missing (get r column) = true) ->
  aggregate by_ column agg_sum i gs = Ok rs ->
  (sum_column rs column == sum_column (flat_map snd gs) column)%Q.
Proof.
  intros Hn. revert i rs. induction gs as [|[k members] gs IH]; intros i rs Hnum; simpl.
  - intros H. inversion H. reflexivity.
  - destruct (@agg_sum_numbers (map (fun r => get r column) members))
      as (q & Eq & Hq).
    { rewrite Forall_map. apply Forall_forall. intros r Hr.
      eapply Hnum; [left; reflexivity | exact Hr]. }
    rewrite Eq. simpl.
    destruct (aggregate by_ column agg_sum (S i) gs) as [rs'|e] eqn:E;
      simpl; [|discriminate].
    intros H. inversion H; subst rs; clear H.
    rewrite sum_column_app. unfold sum_column at 1. simpl.
    fold (sum_column rs' column).
    rewrite (IH (S i) rs'); [| |exact E].
    + apply Qplus_comp; [|reflexivity].
      unfold get. simpl. rewrite assoc_combine_other by exact Hn. simpl.
      rewrite map_map in Hq. exact Hq.
    + intros k' m' r Hin Hr. eapply Hnum; [right; exact Hin | exact Hr].
Qed.



Lemma aggregate_inv (by_ : list string) (column : string)
    (agg : list cell -> result cell) (gs : list (list cell * list row))
    (i : nat) (rs : list row) :
  aggregate by_ column agg i gs = Ok rs ->
  Forall2 (fun g r => exists v,
             agg (map (fun x => get x column) (snd g)) = Ok v /\
             cells r = (combine by_ (fst g) ++ [(column, v)])%list) gs rs.
Proof.
  revert i rs. induction gs as [|[k members] gs IH]; intros i rs; simpl.
  - intros H. inversion H. constructor.
  - destruct (agg _) as [v|e] eqn:Ev; simpl; [|discriminate].
    destruct (aggregate by_ column agg (S i) gs) as [rs'|e] eqn:E;
      simpl; [|discriminate].
    intros H. inversion H; subst. constructor; eauto.
Qed.

Lemma groups_keys (by_ : list string) (rs : list row) :
  map fst (groups by_ rs)
  = sort_keys (unique key_eqb (map (group_key by_) (filter (keyed by_) rs))).
Proof. unfold groups. rewrite map_map. simpl. apply map_id. Qed.

Lemma distinct_perm (K : Type) (eqb : K -> K -> bool) (l l' : list K) :
  (forall a b, eqb a b = eqb b a) ->
  Permutation l l' -> distinct eqb l -> distinct eqb l'.
Proof.
  intros Hsym HP. unfold distinct. induction HP; intros HD.
  - constructor.
  - inversion HD; subst. constructor; auto.
    eapply Permutation_Forall; eauto.
  - inversion HD as [|? ? HD' HF]; subst. inversion HD' as [|? ? HD'' HF']; subst.
    inversion HF as [|? ? Hyx HFx]; subst.
    constructor; [constructor; auto|].
    constructor; auto. now rewrite Hsym.
  - auto.
Qed.

Lemma cell_leb_total (a b : cell) : cell_leb a b = false -> cell_leb b a = true.
Proof.
  destruct a as [|p|s|d|], b as [|q|t|e|]; simpl; try discriminate; auto.
  - intros H. apply Qle_bool_iff.
    destruct (Qlt_le_dec p q) as [Hlt|Hle]; [|exact Hle].
    apply Qlt_le_weak in Hlt. apply Qle_bool_iff in Hlt. congruence.
  - intros H. destruct (String.leb_total s t) as [H'|H']; congruence.
  - apply date_leb_false.
Qed.

Lemma cell_eqb_leb (a b : cell) : cell_eqb a b = true -> cell_leb a b = true.
Proof.
  destruct a as [|p|s|d|], b as [|q|t|e|]; simpl; try discriminate; auto.
  - intros H. apply Qle_bool_iff. apply Qeq_bool_iff in H. rewrite H.
    apply Qle_refl.
  - intros H. apply String.eqb_eq in H. subst.
    destruct (String.leb_total t t); assumption.
  - intros H. destruct (date_compare d e) eqn:E; try discriminate.
    apply date_compare_eq in E. subst. apply date_le_refl.
Qed.

Lemma key_leb_total (a b : list cell) : key_leb a b = false -> key_leb b a = true.
Proof.
  revert b. induction a as [|x a IH]; intros [|y b]; simpl; try discriminate; auto.
  rewrite (cell_eqb_sym y x). destruct (cell_eqb x y); auto.
  apply cell_leb_total.
Qed.

Lemma insert_key_sorted (k : list cell) (l : list (list cell)) :
  Sorted (fun a b => key_leb a b = true) l ->
  Sorted (fun a b => key_leb a b = true) (insert_key k l).
Proof.
  induction 1 as [|k' l HS IH HR]; simpl.
  - repeat constructor.
  - destruct (key_leb k k') eqn:E.
    + constructor; [constructor; auto|]. constructor. exact E.
    + constructor; auto.
      destruct l as [|k'' l]; simpl in *.
      * constructor. now apply key_leb_total.
      * destruct (key_leb k k''); constructor.
        -- now apply key_leb_total.
        -- inversion HR; auto.
Qed.

Lemma sort_keys_sorted (l : list (list cell)) :
  Sorted (fun a b => key_leb a b = true) (sort_keys l).
Proof.
  unfold sort_keys. induction l; simpl; [constructor | now apply insert_key_sorted].
Qed.

(** X6: the table given to the chart by city, and to the chart of ratings,
    has one row for each city of its input and no other: no city twice,
    every city one that a row of the input has, every row with a city
    represented, and the cities in ascending order. *)
Theorem grouping_has_one_row_per_city
    (df res : DataFrame) (column : string) (agg : list cell -> result cell) :
  groupby_agg df ["City"] column agg = Ok res ->
  let cities := map (fun r => get r "City") (rows res) in
  distinct cell_eqb cities /\
  (forall c, In c cities ->
     isna c = false /\ exists r, In r (rows df) /\ get r "City" = c) /\
  (forall r, In r (rows df) -> isna (get r "City") = false ->
     exists c, In c cities /\ cell_eqb (get r "City") c = true) /\
  Sorted (fun a b => cell_leb a b = true) cities.
Proof.
  unfold groupby_agg.
  destruct (first_missing df _); [discriminate|].
  destruct (aggregate _ _ _ 0 _) as [rs|e] eqn:E; simpl; [|discriminate].
  intros H. inversion H; subst res; clear H. simpl rows.
  apply aggregate_inv in E.
  set (ks := unique key_eqb (map (group_key ["City"])
                               (filter (keyed ["City"]) (rows df)))).
  assert (Hk : map (fun r => [get r "City"]) rs = sort_keys ks).
  { unfold ks. rewrite <- groups_keys.
    assert (Hshape : forall g, In g (groups ["City"] (rows df)) ->
                               exists c, fst g = [c]).
    { intros [k m] Hin. unfold groups in Hin. apply in_map_iff in Hin.
      destruct Hin as (k' & Heq & Hk'). inversion Heq; subst k' m. simpl.
      apply (Permutation_in _ (sort_keys_perm _)) in Hk'.
      assert (Hk'' : In k (map (group_key ["City"])
                              (filter (keyed ["City"]) (rows df))))
        by (eapply Subsequence_In; [apply unique_sub | exact Hk']).
      apply in_map_iff in Hk''. destruct Hk'' as (r & <- & _).
      simpl. eauto. }
    clear - E Hshape. induction E as [|g r gs rs (v & _ & Hc) _ IH]; simpl; auto.
    f_equal.
    - destruct (Hshape g (or_introl eq_refl)) as (c & Hg).
      rewrite Hg. unfold get. rewrite Hc, Hg. reflexivity.
    - apply IH. intros g' Hg'. apply Hshape. now right. }
  assert (Hcities : map (fun r => get r "City") rs
                    = map (fun k => hd NaN k) (sort_keys ks)).
  { rewrite <- Hk, map_map. reflexivity. }
  assert (Hks : forall k, In k (sort_keys ks) ->
                  exists r, In r (rows df) /\ keyed ["City"] r = true /\
                            k = [get r "City"]).
  { intros k Hin. apply (Permutation_in _ (sort_keys_perm _)) in Hin.
    assert (Hin' : In k (map (group_key ["City"])
                            (filter (keyed ["City"]) (rows df))))
      by (eapply Subsequence_In; [apply unique_sub | exact Hin]).
    apply in_map_iff in Hin'. destruct Hin' as (r & <- & Hr).
    apply filter_In in Hr. destruct Hr. exists r. auto. }
  assert (Hd : distinct key_eqb (sort_keys ks)).
  { eapply distinct_perm; [apply key_eqb_sym | apply Permutation_sym, sort_keys_perm|].
    apply unique_distinct, key_eqb_sym. }
  rewrite Hcities. split; [|split; [|split]].
  - clear - Hd Hks. induction Hd as [|k l Hd IH HF]; simpl; [constructor|].
    constructor.
    + apply IH. intros k' Hk'. apply Hks. now right.
    + rewrite Forall_map. rewrite Forall_forall in *. intros k' Hk'.
      specialize (HF k' Hk').
      destruct (Hks k (or_introl eq_refl)) as (r & _ & _ & ->).
      destruct (Hks k' (or_intror Hk')) as (r' & _ & _ & ->).
      simpl in *. now rewrite andb_true_r in HF.
  - intros c Hc. apply in_map_iff in Hc. destruct Hc as (k & <- & Hk').
    destruct (Hks k Hk') as (r & Hr & Hkeyed & ->). simpl.
    unfold keyed in Hkeyed. simpl in Hkeyed. rewrite orb_false_r in Hkeyed.
    apply negb_true_iff in Hkeyed. eauto.
  - intros r Hr Hna.
    assert (Hin : In (group_key ["City"] r)
                     (map (group_key ["City"]) (filter (keyed ["City"]) (rows df)))).
    { apply in_map. apply filter_In. split; auto.
      unfold keyed. simpl. now rewrite Hna. }
    destruct (unique_covers key_eqb key_eqb_refl _ _ Hin) as (k & Hk' & He).
    apply (Permutation_in _ (Permutation_sym (sort_keys_perm ks))) in Hk'.
    destruct (Hks k Hk') as (r' & _ & _ & ->).
    exists (get r' "City"). split.
    + apply in_map_iff. exists [get r' "City"]. auto.
    + simpl in He. now rewrite andb_true_r in He.
  - pose proof (sort_keys_sorted ks) as HS.
    clear - HS Hks. induction HS as [|k l HS IH HR]; simpl; [constructor|].
    constructor.
    + apply IH. intros k' Hk'. apply Hks. now right.
    + destruct HR as [|k' l Hkk']; simpl; constructor.
      destruct (Hks k (or_introl eq_refl)) as (r & _ & _ & ->).
      destruct (Hks k' (or_intror (or_introl eq_refl))) as (r' & _ & _ & ->).
      simpl in *.
      destruct (cell_eqb (get r "City") (get r' "City")) eqn:E; auto.
      now apply cell_eqb_leb.
Qed.

Lemma grouping_has_one_row_per_city_scenario :
  exists by_city,
    groupby_agg scenario_table ["City"] "Total" agg_sum = Ok by_city /\
    map (fun r => get r "City") (rows by_city) = [Str "CityA"; Str "CityB"] /\
    distinct cell_eqb (map (fun r => get r "City") (rows by_city)) /\
    Sorted (fun a b => cell_leb a b = true)
           (map (fun r => get r "City") (rows by_city)).
Proof.
  destruct (groupby_agg scenario_table ["City"] "Total" agg_sum)
    as [by_city|e] eqn:G; [|vm_compute in G; discriminate].
  exists by_city. split; [reflexivity|].
  destruct (@grouping_has_one_row_per_city scenario_table by_city "Total" agg_sum G)
    as (Hd & _ & _ & Hs).
  split; [|split; [exact Hd | exact Hs]].
  vm_compute in G. inversion G. reflexivity.
Defined.

(** ** The mean of the ratings *)

Local Open Scope Q_scope.

Lemma inject_succ (n : nat) :
  inject_Z (Z.of_nat (S n)) == inject_Z (Z.of_nat n) + 1.
Proof.
  rewrite Nat2Z.inj_succ. unfold Z.succ. rewrite inject_Z_plus. reflexivity.
Qed.

Lemma Qsum_bounds (lo hi : Q) (qs : list Q) :
  Forall (fun q => lo <= q /\ q <= hi) qs ->
  inject_Z (Z.of_nat (List.length qs)) * lo <= Qsum qs /\
  Qsum qs <= inject_Z (Z.of_nat (List.length qs)) * hi.
Proof.
  induction 1 as [|q qs [Hlo Hhi] _ [IHlo IHhi]].
  - simpl. rewrite !Qmult_0_l. split; apply Qle_refl.
  - change (Qsum (q :: qs)) with (q + Qsum qs).
    change (List.length (q :: qs)) with (S (List.length qs)).
    rewrite inject_succ. rewrite !Qmult_plus_distr_l, !Qmult_1_l.
    split.
    + rewrite (Qplus_comm (inject_Z (Z.of_nat (List.length qs)) * lo) lo).
      apply Qplus_le_compat; assumption.
    + rewrite (Qplus_comm (inject_Z (Z.of_nat (List.length qs)) * hi) hi).
      apply Qplus_le_compat; assumption.
Qed.

Lemma mean_bounds (lo hi : Q) (qs : list Q) :
  qs <> [] ->
  Forall (fun q => lo <= q /\ q <= hi) qs ->
  lo <= Qsum qs / inject_Z (Z.of_nat (List.length qs)) /\
  Qsum qs / inject_Z (Z.of_nat (List.length qs)) <= hi.
Proof.
  intros Hne HF. destruct (Qsum_bounds HF) as [Hlo Hhi].
  assert (Hpos : 0 < inject_Z (Z.of_nat (List.length qs))).
  { destruct qs; [congruence|].
    change 0 with (inject_Z 0). rewrite <- Zlt_Qlt. simpl List.length. lia. }
  split.
  - apply Qle_shift_div_l; auto. now rewrite Qmult_comm.
  - apply Qle_shift_div_r; auto. now rewrite Qmult_comm.
Qed.

Lemma numbers_within (lo hi : Q) (l : list cell) (qs : list Q) :
  Forall (within lo hi) l -> numbers l = Ok qs ->
  Forall (fun q => lo <= q /\ q <= hi) qs.
Proof.
  intros HF. revert qs. induction HF as [|c l Hc _ IH]; intros qs; simpl.
  - intros H. inversion H. constructor.
  - destruct c as [|q|s|d|]; simpl in *; try contradiction; auto.
    destruct (numbers l) as [qs'|e]; simpl; [|discriminate].
    intros H. inversion H; subst. constructor; auto.
Qed.

Lemma agg_mean_within (lo hi : Q) (l : list cell) (v : cell) :
  Forall (within lo hi) l -> agg_mean l = Ok v -> within lo hi v.
Proof.
  intros HF. unfold agg_mean.
  destruct (numbers l) as [qs|e] eqn:E; cbn [bind]; [|discriminate].
  pose proof (numbers_within HF E) as Hqs.
  destruct qs as [|q qs]; intros H.
  { replace v with NaN by congruence. exact I. }
  replace v
    with (Num (Qred (Qsum (q :: qs)
                     / inject_Z (Z.of_nat (List.length (q :: qs))))))
    by congruence.
  cbn [within]. rewrite Qred_correct.
  apply mean_bounds; [discriminate | assumption].
Qed.

Local Close Scope Q_scope.



(** ** The month filter, again *)

Lemma filter_idem (A : Type) (f : A -> bool) (l : list A) :
  filter f (filter f l) = filter f l.
Proof.
  induction l as [|a l IH]; simpl; auto.
  destruct (f a) eqn:E; simpl; rewrite ?E, IH; auto.
Qed.

Lemma filter_none (A : Type) (f : A -> bool) (l : list A) :
  (forall a, In a l -> f a = false) -> filter f l = [].
Proof.
  induction l as [|a l IH]; simpl; auto. intros H.
  rewrite (H a (or_introl eq_refl)). apply IH. auto.
Qed.

Lemma month_filter_inv (df sub : DataFrame) (m : option cell) :
  month_filter df m = Ok sub ->
  has_column df "Month" = true /\
  sub = mkFrame (columns df)
                (filter (fun r => eq_scalar m (get r "Month")) (rows df)).
Proof.
  intros H. destruct (has_column df "Month") eqn:E.
  - rewrite month_filter_rows in H by exact E. inversion H. auto.
  - unfold month_filter, getitem in H. rewrite E in H. discriminate.
Qed.

(** X8: filtering twice changes nothing more: the month filter applied to
    its own result with the same key returns that result, and with another
    key it returns a table without rows. *)
Theorem month_filter_twice (df sub : DataFrame) (k : string) :
  month_filter df (Some (Str k)) = Ok sub ->
  month_filter sub (Some (Str k)) = Ok sub /\
  (forall k' : string, k' <> k ->
     exists none, month_filter sub (Some (Str k')) = Ok none /\ rows none = []).
Proof.
  intros H. apply month_filter_inv in H. destruct H as [HM ->].
  split.
  - rewrite month_filter_rows by exact HM. simpl. now rewrite filter_idem.
  - intros k' Hne. eexists. split; [apply month_filter_rows; exact HM|].
    simpl. apply filter_none. intros r Hr. apply filter_In in Hr.
    destruct Hr as [_ Hr]. apply eq_scalar_Str in Hr.
    destruct (eq_scalar (Some (Str k')) (get r "Month")) eqn:E; auto.
    apply eq_scalar_Str in E. rewrite Hr in E. inversion E. congruence.
Qed.

Lemma month_filter_twice_scenario :
  (exists sub,
     month_filter scenario_table (Some (Str "2019-01")) = Ok sub /\
     month_filter sub (Some (Str "2019-01")) = Ok sub /\
     exists none, month_filter sub (Some (Str "2019-02")) = Ok none /\ rows none = []).
Proof.
  destruct (month_filter scenario_table (Some (Str "2019-01"))) as [sub|e] eqn:F;
    [|vm_compute in F; discriminate].
  exists sub. split; [reflexivity|].
  destruct (@month_filter_twice scenario_table sub "2019-01" F) as [Hsame Hother].
  split; [exact Hsame|]. apply Hother. discriminate.
Defined.

Lemma loaded_months_partition (argsort : list date -> list nat) (fs : filesystem)
    (path : Path) (df : DataFrame) :
  load_data_wrapped argsort fs path = Ok df ->
  Permutation
    (flat_map (rows_of_month df)
              (unique cell_eqb (map (fun r => get r "Month") (rows df))))
    (rows df).
Proof.
  intros H.
  destruct (@load_data_wrapped_inv argsort fs path df H)
    as (df0 & ts & _ & _ & _ & HM & _).
  rewrite (flat_map_ext (rows_of_month df)
             (fun k => filter (fun r => cell_eqb (get r "Month") k) (rows df))).
  - apply (partition_by_key cell_eqb_sym cell_eqb_trans).
    + apply unique_distinct. apply cell_eqb_sym.
    + intros r Hr. apply unique_covers; [apply cell_eqb_refl|].
      apply in_map_iff. eauto.
  - intros k. rewrite rows_of_month_filter by exact HM.
    apply filter_ext_in. intros r Hr.
    rewrite (@loaded_month argsort fs path df r H Hr).
    unfold eq_scalar, month_key. reflexivity.
Qed.

Lemma sum_column_flat_map (A : Type) (f : A -> list row) (l : list A) (c : string) :
  (sum_column (flat_map f l) c == Qsum (map (fun a => sum_column (f a) c) l))%Q.
Proof.
  induction l as [|a l IH]; simpl; [reflexivity|].
  rewrite sum_column_app, IH. reflexivity.
Qed.

(** X9: the months share out the table: for a loaded table and any column,
    the sums of the column over the rows of each selectable month add up to
    the sum of the column over the whole table. *)
Theorem months_share_out_the_totals
    (argsort : list date -> list nat) (fs : filesystem) (path : Path)
    (df : DataFrame) (column : string) :
  load_data_wrapped argsort fs path = Ok df ->
  (Qsum (map (fun k => sum_column (rows_of_month df k) column)
             (unique cell_eqb (map (fun r => get r "Month") (rows df))))
   == sum_column (rows df) column)%Q.
Proof.
  intros H. rewrite <- sum_column_flat_map.
  apply sum_column_perm. eapply loaded_months_partition; eauto.
Qed.

Lemma months_share_out_the_totals_scenario :
  load_data_wrapped stable_argsort scenario "sales.csv" = Ok scenario_table /\
  (Qsum (map (fun k => sum_column (rows_of_month scenario_table k) "Total")
             (unique cell_eqb (map (fun r => get r "Month") (rows scenario_table))))
   == sum_column (rows scenario_table) "Total")%Q.
Proof.
  assert (L : load_data_wrapped stable_argsort scenario "sales.csv" = Ok scenario_table)
    by (vm_compute; reflexivity).
  split; [exact L|].
  exact (@months_share_out_the_totals stable_argsort scenario "sales.csv"
           scenario_table "Total" L).
Defined.

(** X10: the month chosen in the selector always has sales: when the choice
    is one of the options, [sidebar_filters] returns a table with at least
    one row, whose rows are the rows of the loaded table with that month
    key; it draws the header and the selector and changes nothing else. *)
Theorem selected_month_has_rows
    (argsort : list date -> list nat) (selectbox : list cell -> option cell)
    (fs : filesystem) (path : Path) (df : DataFrame) (k : cell) (w : world) :
  load_data_wrapped argsort fs path = Ok df ->
  let options := unique cell_eqb (map (fun r => get r "Month") (rows df)) in
  selectbox options = Some k ->
  In k options ->
  exists sub,
    sidebar_filters selectbox df w
    = (Ok sub, add_page [SidebarHeader; Selectbox options] w) /\
    rows sub <> [] /\
    (forall r, In r (rows sub) <-> In r (rows df) /\ get r "Month" = k).
Proof.
  intros H options Hsel Hin.
  destruct (@load_data_wrapped_inv argsort fs path df H)
    as (df0 & ts & _ & _ & _ & HM & _).
  assert (Hcol : In k (map (fun r => get r "Month") (rows df)))
    by (eapply Subsequence_In; [apply unique_sub | exact Hin]).
  apply in_map_iff in Hcol. destruct Hcol as (r0 & Hk & Hr0).
  assert (Hs : exists s, k = Str s).
  { rewrite <- Hk, (@loaded_month argsort fs path df r0 H Hr0).
    unfold month_key. eauto. }
  destruct Hs as (s & ->).
  assert (Hmem : forall r,
             In r (filter (fun r => eq_scalar (Some (Str s)) (get r "Month")) (rows df))
             <-> In r (rows df) /\ get r "Month" = Str s).
  { intros r. rewrite filter_In, eq_scalar_Str. tauto. }
  eexists. split; [|split].
  - rewrite (sidebar_filters_draws selectbox df HM w). fold options.
    rewrite Hsel. rewrite month_filter_rows by exact HM. reflexivity.
  - simpl. intros E. assert (Hr : In r0 []) by (rewrite <- E; apply Hmem; auto).
    destruct Hr.
  - simpl. exact Hmem.
Qed.

Lemma selected_month_has_rows_scenario :
  load_data_wrapped stable_argsort scenario "sales.csv" = Ok scenario_table /\
  first_option (unique cell_eqb (map (fun r => get r "Month") (rows scenario_table)))
  = Some (Str "2019-01") /\
  In (Str "2019-01")
     (unique cell_eqb (map (fun r => get r "Month") (rows scenario_table))) /\
  exists sub,
    fst (sidebar_filters first_option scenario_table initial) = Ok sub /\
    rows sub <> [].
Proof.
  assert (L : load_data_wrapped stable_argsort scenario "sales.csv" = Ok scenario_table)
    by (vm_compute; reflexivity).
  assert (S : first_option (unique cell_eqb
                 (map (fun r => get r "Month") (rows scenario_table)))
              = Some (Str "2019-01")) by reflexivity.
  assert (I : In (Str "2019-01")
                 (unique cell_eqb (map (fun r => get r "Month") (rows scenario_table))))
    by (simpl; auto).
  split; [exact L|]. split; [exact S|]. split; [exact I|].
  destruct (@selected_month_has_rows stable_argsort first_option scenario "sales.csv"
              scenario_table (Str "2019-01") initial L S I) as (sub & Hs & Hne & _).
  exists sub. split; [now rewrite Hs | exact Hne].
Defined.

(** ** Dates *)

Lemma directive_d_range (s : list ascii) (d : nat) :
  directive_d s = Some d -> 1 <= d <= 31.
Proof.
  unfold directive_d. destruct s as [|a [|b [|c s]]]; try discriminate.
  - destruct (is_digit a) eqn:Ea; cbn [andb]; try discriminate.
    destruct (1 <=? digit_val a) eqn:E1; try discriminate.
    intros H; inversion H; subst. apply Nat.leb_le in E1.
    apply digit_val_bound in Ea. lia.
  - destruct (Ascii.eqb a " ").
    + destruct (is_digit b) eqn:Eb; cbn [andb]; try discriminate.
      destruct (1 <=? digit_val b) eqn:E1; try discriminate.
      intros H; inversion H; subst. apply Nat.leb_le in E1.
      apply digit_val_bound in Eb. lia.
    + destruct (is_digit a && is_digit b && (1 <=? 10 * digit_val a + digit_val b)
                && (10 * digit_val a + digit_val b <=? 31)) eqn:E; try discriminate.
      intros H; inversion H; subst.
      apply andb_true_iff in E. destruct E as [E H31].
      apply andb_true_iff in E. destruct E as [E H1].
      apply Nat.leb_le in H1, H31. lia.
Qed.

Lemma strptime_valid (s : string) (d : date) :
  strptime s = Ok d ->
  calendar_date d /\ date_le Timestamp_min d /\ date_le d Timestamp_max.
Proof.
  unfold strptime, calendar_date.
  destruct (split _ _) as [|sm [|sd [|sy [|? ?]]]]; try discriminate.
  destruct (directive_m sm) as [m|] eqn:Em; try discriminate.
  destruct (directive_d sd) as [dd|] eqn:Ed; try discriminate.
  destruct (directive_Y sy) as [y|]; try discriminate.
  destruct ((y =? 0) || (days_in_month y m <? dd)) eqn:Ev; try discriminate.
  destruct (date_leb Timestamp_min _ && date_leb _ Timestamp_max) eqn:E;
    try discriminate.
  intros H; inversion H; subst; clear H. cbn [year month day].
  apply andb_true_iff in E. destruct E as [E1 E2].
  apply orb_false_iff in Ev. destruct Ev as [_ Ev]. apply Nat.ltb_ge in Ev.
  apply directive_m_range in Em. apply directive_d_range in Ed.
  repeat split; auto; lia.
Qed.

(** X11: the dates of a loaded table are dates of the calendar: the month
    is between 1 and 12, the day exists in that month of that year (leap
    years counted), and the date is one a nanosecond timestamp can hold. *)
Theorem loaded_dates_are_calendar_dates
    (argsort : list date -> list nat) (fs : filesystem) (path : Path)
    (df : DataFrame) (r : row) (d : date) :
  argsort_contract argsort ->
  load_data_wrapped argsort fs path = Ok df ->
  In r (rows df) -> get r "Date" = Ts d ->
  calendar_date d /\ date_le Timestamp_min d /\ date_le d Timestamp_max.
Proof.
  intros contract H Hin Hd.
  destruct (@load_data_wrapped_inv argsort fs path df H) as (df0 & ts & E0 & _).
  destruct (@loaded_row_origin argsort contract fs path df0 df E0 H r Hin)
    as (r0 & t & Hr0 & Ht & ->).
  rewrite with_month_date, get_set_cell_same in Hd. subst t.
  pose proof (@read_csv_cells fs path df0 r0 "Date" E0 Hr0) as Hc.
  destruct (get r0 "Date"); simpl in *; try discriminate.
  destruct (strptime s) eqn:Es; simpl in Ht; try discriminate.
  inversion Ht; subst. eapply strptime_valid; eauto.
Qed.

Lemma loaded_dates_are_calendar_dates_scenario :
  argsort_contract stable_argsort /\
  load_data_wrapped stable_argsort scenario "sales.csv" = Ok scenario_table /\
  forall r d, In r (rows scenario_table) -> get r "Date" = Ts d -> calendar_date d.
Proof.
  assert (L : load_data_wrapped stable_argsort scenario "sales.csv" = Ok scenario_table)
    by (vm_compute; reflexivity).
  split; [exact stable_argsort_contract|]. split; [exact L|].
  intros r d Hr Hd.
  exact (proj1 (@loaded_dates_are_calendar_dates stable_argsort scenario "sales.csv"
                  scenario_table r d stable_argsort_contract L Hr Hd)).
Defined.

Lemma months_read :
  forallb (fun m => reads_as directive_m (zero_pad 2 (decimal m)) m) (seq 1 12) = true.
Proof. vm_compute. reflexivity. Qed.

Lemma days_read :
  forallb (fun d => reads_as directive_d (zero_pad 2 (decimal d)) d) (seq 1 31) = true.
Proof. vm_compute. reflexivity. Qed.

Lemma years_read :
  forallb (fun y => reads_as directive_Y (zero_pad 4 (decimal y)) y) (seq 1677 586)
  = true.
Proof. vm_compute. reflexivity. Qed.

Lemma reads_as_spec (directive : list ascii -> option nat) (s : string) (n : nat) :
  reads_as directive s n = true ->
  directive (list_ascii_of_string s) = Some n /\ no_slash s = true.
Proof.
  unfold reads_as. destruct (directive _) as [n'|]; [|discriminate].
  intros H. apply andb_true_iff in H. destruct H as [H1 H2].
  apply Nat.eqb_eq in H1. subst. auto.
Qed.

(** X12: the loader reads the month first: every date of the calendar that
    a timestamp can hold, written month/day/year with leading zeros, is read
    back as that date. *)
Theorem strptime_reads_month_day_year (d : date) :
  calendar_date d -> date_le Timestamp_min d -> date_le d Timestamp_max ->
  strptime (strftime d) = Ok d.
Proof.
  intros [Hm Hd] Hmin Hmax. destruct d as [y m dd]. cbn [year month day] in *.
  assert (Hy : 1677 <= y <= 2262).
  { apply date_leb_iff in Hmin, Hmax. simpl in Hmin, Hmax. lia. }
  assert (Hdd : 1 <= dd <= 31).
  { split; [lia|]. destruct Hd as [_ Hd]. unfold days_in_month in Hd.
    destruct m as [|[|[|[|[|[|[|[|[|[|[|[|[|m]]]]]]]]]]]]];
      try destruct (is_leap y); lia. }
  pose proof months_read as TM. rewrite forallb_forall in TM.
  destruct (reads_as_spec _ _ _ (TM m ltac:(apply in_seq; lia))) as [Em Sm].
  pose proof days_read as TD. rewrite forallb_forall in TD.
  destruct (reads_as_spec _ _ _ (TD dd ltac:(apply in_seq; lia))) as [Ed Sd].
  pose proof years_read as TY. rewrite forallb_forall in TY.
  destruct (reads_as_spec _ _ _ (TY y ltac:(apply in_seq; lia))) as [Ey Sy].
  unfold strptime, strftime. cbn [year month day].
  rewrite !chars_append. simpl (list_ascii_of_string "/").
  cbn [app].
  rewrite split_at_sep; [|exact Sm | reflexivity].
  rewrite split_at_sep; [|exact Sd | reflexivity].
  rewrite split_no_sep by exact Sy.
  rewrite Em, Ed, Ey.
  replace (y =? 0) with false by (symmetry; apply Nat.eqb_neq; lia).
  replace (days_in_month y m <? dd) with false
    by (symmetry; apply Nat.ltb_ge; lia).
  cbn [orb]. unfold date_le in Hmin, Hmax. rewrite Hmin, Hmax. reflexivity.
Qed.

Lemma strptime_reads_month_day_year_scenario :
  calendar_date (mkDate 2019 1 2) /\
  date_le Timestamp_min (mkDate 2019 1 2) /\
  date_le (mkDate 2019 1 2) Timestamp_max /\
  strftime (mkDate 2019 1 2) = "01/02/2019" /\
  strptime "01/02/2019" = Ok (mkDate 2019 1 2).
Proof.
  assert (C : calendar_date (mkDate 2019 1 2)) by (unfold calendar_date; simpl; lia).
  assert (A : date_le Timestamp_min (mkDate 2019 1 2)) by reflexivity.
  assert (B : date_le (mkDate 2019 1 2) Timestamp_max) by reflexivity.
  split; [exact C|]. split; [exact A|]. split; [exact B|]. split; [reflexivity|].
  exact (@strptime_reads_month_day_year (mkDate 2019 1 2) C A B).
Defined.

(** ** The errors of the loader *)

Lemma parse_table_errors (lines : list (list string)) (e : exception) :
  parse_table lines = Raise e -> e = EmptyDataError \/ e = ParserError.
Proof.
  unfold parse_table. destruct lines as [|header data].
  - intros H. inversion H. auto.
  - destruct (existsb _ data); intros H; inversion H. auto.
Qed.

Lemma strptime_errors (s : string) (e : exception) :
  strptime s = Raise e -> e = ValueError \/ e = OutOfBoundsDatetime.
Proof.
  unfold strptime.
  destruct (split _ _) as [|sm [|sd [|sy [|? ?]]]];
    try (intros H; inversion H; auto; fail).
  destruct (directive_m sm); [|intros H; inversion H; auto].
  destruct (directive_d sd); [|intros H; inversion H; auto].
  destruct (directive_Y sy); [|intros H; inversion H; auto].
  destruct ((_ =? 0) || _); [intros H; inversion H; auto|].
  destruct (_ && _); intros H; inversion H; auto.
Qed.

Lemma to_datetime1_errors (c : cell) (e : exception) :
  to_datetime1 c = Raise e -> e = ValueError \/ e = OutOfBoundsDatetime.
Proof.
  destruct c as [|q|s|d|]; simpl; try discriminate.
  - intros H. inversion H. auto.
  - destruct (strptime s) eqn:E; simpl; [discriminate|].
    intros H. inversion H; subst. eapply strptime_errors; eauto.
Qed.

Lemma to_datetime_error (col : list cell) (e : exception) :
  to_datetime col = Raise e -> exists c, In c col /\ to_datetime1 c = Raise e.
Proof.
  induction col as [|c col IH]; simpl; [discriminate|].
  destruct (to_datetime1 c) as [t|e1] eqn:E1; simpl.
  - destruct (to_datetime col) as [ts|e2]; simpl; [discriminate|].
    intros H. inversion H; subst. destruct (IH eq_refl) as (c' & Hc & He). eauto.
  - intros H. inversion H; subst. eauto.
Qed.



(** ** The columns of a loaded table *)

Lemma load_data_wrapped_columns (argsort : list date -> list nat)
    (fs : filesystem) (path : Path) (df0 df : DataFrame) :
  read_csv fs path = Ok df0 ->
  load_data_wrapped argsort fs path = Ok df ->
  columns df = if has_column df0 "Month" then columns df0
               else (columns df0 ++ ["Month"])%list.
Proof.
  intros E0. unfold load_data_wrapped. rewrite E0. simpl.
  unfold getitem at 1.
  destruct (has_column df0 "Date") eqn:EC; simpl; [|discriminate].
  destruct (to_datetime _) as [ts|e] eqn:ET; simpl; [|discriminate].
  unfold sort_values, getitem. rewrite has_column_setitem. simpl.
  unfold has_column at 1. simpl columns. rewrite EC.
  unfold has_column in EC. rewrite EC. simpl.
  intros H. inversion H; subst; clear H. reflexivity.
Qed.

(** X14: the loaded table is the parsed table with one more column: its
    columns are those of the file, followed by [Month] unless the file has a
    column of that name (which is then replaced); and in every column other
    than [Date] and [Month] each record holds what the parser read for it. *)
Theorem loaded_table_adds_the_month_column
    (argsort : list date -> list nat) (fs : filesystem) (path : Path)
    (df0 df : DataFrame) :
  argsort_contract argsort ->
  read_csv fs path = Ok df0 ->
  load_data_wrapped argsort fs path = Ok df ->
  columns df = (if has_column df0 "Month" then columns df0
                else (columns df0 ++ ["Month"])%list) /\
  List.length (rows df) = List.length (rows df0) /\
  (forall r, In r (rows df) ->
     exists r0, In r0 (rows df0) /\ pos r0 = pos r /\
                forall c, c <> "Date" -> c <> "Month" -> get r c = get r0 c).
Proof.
  intros contract E0 H. split; [|split].
  - eapply load_data_wrapped_columns; eauto.
  - pose proof (@loaded_positions argsort contract fs path df0 df E0 H) as HP.
    apply Permutation_length in HP. now rewrite !length_map in HP.
  - intros r Hin.
    destruct (@loaded_row_origin argsort contract fs path df0 df E0 H r Hin)
      as (r0 & t & Hr0 & _ & ->).
    exists r0. split; [exact Hr0|]. split; [reflexivity|].
    intros c Hd Hm. rewrite with_month_other by exact Hm.
    apply get_set_cell_other. congruence.
Qed.

Lemma loaded_table_adds_the_month_column_scenario :
  argsort_contract stable_argsort /\
  read_csv missing_fields "sales.csv" = Ok missing_fields_parsed /\
  load_data_wrapped stable_argsort missing_fields "sales.csv"
  = Ok missing_fields_table /\
  columns missing_fields_table
  = ["Date"; "City"; "Product line"; "Payment"; "Total"; "Rating"; "Month"] /\
  List.length (rows missing_fields_table) = 2.
Proof.
  assert (P : read_csv missing_fields "sales.csv" = Ok missing_fields_parsed)
    by (vm_compute; reflexivity).
  assert (L : load_data_wrapped stable_argsort missing_fields "sales.csv"
              = Ok missing_fields_table) by (vm_compute; reflexivity).
  split; [exact stable_argsort_contract|]. split; [exact P|]. split; [exact L|].
  destruct (@loaded_table_adds_the_month_column stable_argsort missing_fields
              "sales.csv" missing_fields_parsed missing_fields_table
              stable_argsort_contract P L) as (Hc & Hl & _).
  split; [exact Hc | exact Hl].
Defined.

(** ** A table without a column of the charts *)

(** X15: when the loaded table lacks the column of the totals or the column
    of the cities, [main] raises [ValueError] at the first chart: it has
    drawn the title, the sidebar and the two rows of columns, and draws no
    chart and no caption. *)
Theorem main_without_a_chart_column
    (argsort : list date -> list nat) (selectbox : list cell -> option cell)
    (fs : filesystem) (here : Path) (w : world) (df : DataFrame) :
  cache w = None ->
  load_data_wrapped argsort fs (DATA_PATH here) = Ok df ->
  has_column df "Total" = false \/ has_column df "City" = false ->
  exists options w',
    main argsort selectbox fs here w = (Raise ValueError, w') /\
    page w' = (page w ++ [ Title; SidebarHeader; Selectbox options;
                           Columns 2; Columns 3 ])%list.
Proof.
  intros Hc Hl Hmiss.
  destruct (@load_data_wrapped_inv argsort fs (DATA_PATH here) df Hl)
    as (_ & _ & _ & _ & _ & HM & _).
  set (options := unique cell_eqb (map (fun r => get r "Month") (rows df))).
  set (filtered := mkFrame (columns df)
                     (filter (fun r => eq_scalar (selectbox options) (get r "Month"))
                             (rows df))).
  assert (Hf : month_filter df (selectbox options) = Ok filtered)
    by (apply month_filter_rows, HM).
  assert (Hpx : px filtered ["Date"; "Total"; "City"] = Raise ValueError).
  { unfold px. simpl.
    change (has_column filtered "Date") with (has_column df "Date").
    change (has_column filtered "Total") with (has_column df "Total").
    change (has_column filtered "City") with (has_column df "City").
    destruct (has_column df "Date"); [|reflexivity].
    destruct Hmiss as [-> | ->]; [reflexivity|].
    destruct (has_column df "Total"); reflexivity. }
  assert (D : draws (dashboard selectbox df) (Raise ValueError)
                ([SidebarHeader; Selectbox options] ++ [Columns 2] ++ [Columns 3]
                 ++ [])%list).
  { unfold dashboard.
    eapply draws_bind.
    { rewrite <- Hf. apply sidebar_filters_draws, HM. }
    eapply draws_bind; [apply draws_render|].
    eapply draws_bind; [apply draws_render|].
    apply draws_raise.
    unfold plot_revenue_by_day. apply draws_raise. rewrite Hpx. apply draws_lift. }
  exists options. eexists. split.
  - rewrite main_unfold. unfold load_data. simpl cache. rewrite Hc, Hl.
    simpl heap. rewrite nth_middle. apply D.
  - simpl. now rewrite <- app_assoc.
Qed.

Lemma main_without_a_chart_column_scenario :
  cache initial = None /\
  load_data_wrapped stable_argsort no_city (DATA_PATH "/app") = Ok no_city_table /\
  (has_column no_city_table "Total" = false \/ has_column no_city_table "City" = false) /\
  exists options w',
    main stable_argsort first_option no_city "/app" initial = (Raise ValueError, w') /\
    page w' = (page initial ++ [ Title; SidebarHeader; Selectbox options;
                                 Columns 2; Columns 3 ])%list.
Proof.
  assert (C : cache initial = None) by reflexivity.
  assert (L : load_data_wrapped stable_argsort no_city (DATA_PATH "/app")
              = Ok no_city_table) by (vm_compute; reflexivity).
  assert (M : has_column no_city_table "Total" = false \/
              has_column no_city_table "City" = false) by (right; reflexivity).
  split; [exact C|]. split; [exact L|]. split; [exact M|].
  exact (@main_without_a_chart_column stable_argsort first_option no_city "/app"
           initial no_city_table C L M).
Defined.

(** ** The records without a date *)

Lemma parse_table_positions (lines : list (list string)) (df0 : DataFrame) :
  parse_table lines = Ok df0 ->
  map pos (rows df0) = seq 0 (List.length (rows df0)).
Proof.
  unfold parse_table. destruct lines as [|header data]; [discriminate|].
  destruct (existsb _ data); [discriminate|].
  intros H. inversion H; subst; clear H. simpl rows.
  set (body := map _ data). rewrite length_map, map_map.
  assert (G : forall (a : nat) (l : list (list string)) (f : nat -> list string -> row),
             (forall i x, pos (f i x) = i) ->
             map (fun x : nat * list string => pos (let '(i, y) := x in f i y))
                 (combine (seq a (List.length l)) l)
             = seq a (List.length (combine (seq a (List.length l)) l))).
  { intros a l f Hf. revert a. induction l as [|x l IH]; intros a; simpl; auto.
    rewrite Hf. f_equal. apply IH. }
  apply G. reflexivity.
Qed.

Lemma seq_increasing (a n : nat) : StronglySorted lt (seq a n).
Proof.
  revert a. induction n as [|n IH]; intros a; simpl; constructor; auto.
  apply Forall_forall. intros x Hx. apply in_seq in Hx. lia.
Qed.

Lemma filter_all (A : Type) (f : A -> bool) (l : list A) :
  Forall (fun a => f a = true) l -> filter f l = l.
Proof. induction 1 as [|a l Ha _ IH]; simpl; auto. now rewrite Ha, IH. Qed.

Section Undated.

Variable argsort : list date -> list nat.
Hypothesis contract : argsort_contract argsort.

(** The positions [nargsort] returns: first positions of keys that are
    there, then the positions of the missing keys, in ascending order. *)
Lemma nargsort_missing_last (items : list cell) :
  exists front,
    nargsort argsort items
    = (front ++ filter (fun i => isna (nth i items NaN))
                       (seq 0 (List.length items)))%list /\
    Forall (fun i => isna (nth i items NaN) = false) front.
Proof.
  pose (idx := seq 0 (List.length items)).
  pose (mask := fun i => isna (nth i items NaN)).
  pose (nn := filter (fun i => negb (mask i)) idx).
  pose (ks := map as_date (take NaN nn items)).
  exists (take 0 (argsort ks) nn). split; [reflexivity|].
  destruct (contract ks) as [Hp _].
  assert (Hlen : List.length ks = List.length nn).
  { unfold ks. now rewrite length_map, take_length. }
  unfold take. rewrite Forall_map. apply Forall_forall. intros j Hj.
  apply (Permutation_in _ Hp) in Hj. apply in_seq in Hj.
  assert (Hin : In (nth j nn 0) nn) by (apply nth_In; lia).
  unfold nn in Hin. apply filter_In in Hin. destruct Hin as [_ Hm].
  fold nn in Hm. unfold mask in Hm. now apply negb_true_iff in Hm.
Qed.

(** X16: the records without a date keep the order of the file: in a loaded
    table they stand (after the dated records) by ascending position in the
    file, whatever the sorting routine does with equal dates. *)
Theorem undated_records_keep_file_order
    (fs : filesystem) (path : Path) (df : DataFrame) :
  load_data_wrapped argsort fs path = Ok df ->
  StronglySorted lt
    (map pos (filter (fun r => isna (get r "Date")) (rows df))).
Proof.
  intros H.
  destruct (@load_data_wrapped_inv argsort fs path df H)
    as (df0 & ts & E0 & _ & ET & _ & Hrows).
  assert (Hlen : List.length ts = List.length (rows df0)).
  { apply to_datetime_rows, Forall2_length' in ET. now symmetry. }
  assert (Hpos : map pos (rows df0) = seq 0 (List.length (rows df0))).
  { unfold read_csv in E0. destruct (fs path) as [[|text]|]; try discriminate.
    eapply parse_table_positions; eauto. }
  destruct (nargsort_missing_last ts) as (front & Hsplit & Hfront).
  set (missing := filter (fun i => isna (nth i ts NaN)) (seq 0 (List.length ts))) in *.
  assert (Hdate : forall i, get (with_month (nth i (dated ts (rows df0)) empty_row)) "Date"
                            = nth i ts NaN).
  { intros i. rewrite with_month_date.
    transitivity (nth i (map (fun r => get r "Date") (dated ts (rows df0)))
                      (get empty_row "Date")).
    - symmetry. apply (map_nth (fun r => get r "Date")).
    - now rewrite dated_dates. }
  rewrite Hrows, Hsplit. unfold take. rewrite map_app, map_app, filter_app, map_app.
  rewrite !map_map.
  rewrite (@filter_none _ _ (map _ front)).
  2:{ intros r Hr. apply in_map_iff in Hr. destruct Hr as (i & <- & Hi).
      rewrite Hdate. rewrite Forall_forall in Hfront. now apply Hfront. }
  rewrite filter_all.
  2:{ rewrite Forall_map. apply Forall_forall. intros i Hi. rewrite Hdate.
      unfold missing in Hi. apply filter_In in Hi. tauto. }
  simpl. rewrite map_map.
  erewrite map_ext_in.
  - instantiate (1 := fun i => i). rewrite map_id. unfold missing.
    eapply Subsequence_sorted; [apply Subsequence_filter | apply seq_increasing].
  - intros i Hi. unfold missing in Hi. apply filter_In in Hi.
    destruct Hi as [Hi _]. apply in_seq in Hi.
    rewrite with_month_pos.
    change (pos (nth i (dated ts (rows df0)) empty_row))
      with ((fun r => pos r) (nth i (dated ts (rows df0)) empty_row)).
    rewrite <- (map_nth (fun r => pos r)). unfold dated.
    rewrite set_cells_pos, Hpos. simpl pos.
    rewrite seq_nth by lia. reflexivity.
Qed.

End Undated.

Lemma undated_records_keep_file_order_scenario :
  argsort_contract reversing_argsort /\
  (exists df,
     load_data_wrapped reversing_argsort
       (disk "sales.csv" ["Date;City"; ";CityA"; "01/05/2019;CityB"; ";CityC"])
       "sales.csv" = Ok df /\
     map pos (rows df) = [1; 0; 2] /\
     StronglySorted lt (map pos (filter (fun r => isna (get r "Date")) (rows df)))).
Proof.
  split; [exact reversing_argsort_contract|].
  destruct (load_data_wrapped reversing_argsort
              (disk "sales.csv" ["Date;City"; ";CityA"; "01/05/2019;CityB"; ";CityC"])
              "sales.csv") as [df|e] eqn:L; [|vm_compute in L; discriminate].
  exists df. split; [reflexivity|]. split.
  - vm_compute in L. inversion L. reflexivity.
  - exact (@undated_records_keep_file_order reversing_argsort
             reversing_argsort_contract _ _ df L).
Defined.
